(** * GPSEC_ECS_Tags: tag compliance of ECS resources

    A shallow embedding of [example/GPSEC_ECS_Tags/GPSEC_ECS_Tags.py]:
    the pagination helper [fetch_all_items], the tag classifier
    [tag_regex_filtering], the three resource evaluators
    [taskDefinition_eval], [service_eval], [cluster_eval] and the walker
    [evaluate_periodic].

    Modelling choices.
    - A Python [str] is a [string] whose characters are the code points
      0..255 (the Latin-1 part of Unicode).  [str.lower], [repr], [\d] and
      [\s] are written out for exactly these code points.
    - The boto3 client is an object looked up by attribute name; every call
      of one of its methods is recorded in a call log.  During one pass a
      method answers the same arguments the same way.
    - The list [evaluations] that the evaluators append to is part of the
      state that is threaded through the code, next to the call log.
    - Exceptions are an outcome of the monad; the [while] loop of
      [fetch_all_items] runs on fuel, and running out of it is an outcome
      of its own.
    - [print] only writes to the standard output and is left out. *)

From Stdlib Require Import String Ascii List Bool Arith Lia.
Import ListNotations.

Local Open Scope string_scope.
Local Open Scope list_scope.

(** String concatenation, Python's [+] on [str]; [++] is kept for lists. *)
Infix "+++" := append (right associativity, at level 60).

(* ------------------------------------------------------------------ *)
(** * Python strings *)

Module PyStr.

Definition code (c : ascii) : nat := nat_of_ascii c.

(** [list(s)]: the characters of [s], each a one-character string. *)
Fixpoint chars (s : string) : list string :=
  match s with
  | EmptyString => []
  | String c t => String c EmptyString :: chars t
  end.

(** [s.startswith(p)] *)
Fixpoint startswith (p s : string) : bool :=
  match p, s with
  | EmptyString, _ => true
  | String a p', String b s' => Ascii.eqb a b && startswith p' s'
  | String _ _, EmptyString => false
  end.

(** [sub in s] *)
Fixpoint contains (sub s : string) : bool :=
  startswith sub s ||
  match s with
  | EmptyString => false
  | String _ t => contains sub t
  end.

(** [s[:n]] *)
Fixpoint slice_to (n : nat) (s : string) : string :=
  match n, s with
  | S k, String c t => String c (slice_to k t)
  | _, _ => EmptyString
  end.

(** [s[n:]] *)
Fixpoint slice_from (n : nat) (s : string) : string :=
  match n, s with
  | S k, String _ t => slice_from k t
  | _, _ => s
  end.

(** [c.lower()] on the code points 0..255: A-Z and the capital letters
    of Latin-1 (0xC0-0xDE without the multiplication sign 0xD7). *)
Definition lower_char (c : ascii) : ascii :=
  let n := code c in
  if (((65 <=? n) && (n <=? 90)) ||
      ((192 <=? n) && (n <=? 222) && negb (n =? 215)))%nat
  then ascii_of_nat (n + 32) else c.

(** [s.lower()] *)
Fixpoint lower (s : string) : string :=
  match s with
  | EmptyString => EmptyString
  | String c t => String (lower_char c) (lower t)
  end.

(** [s.count(sub)] for a non-empty [sub]: occurrences are counted from
    the left and do not overlap; [skip] characters are still covered by
    the occurrence found last. *)
Fixpoint count_from (sub : string) (skip : nat) (s : string) : nat :=
  match s with
  | EmptyString => 0
  | String _ t =>
      match skip with
      | S k => count_from sub k t
      | O => if startswith sub s
             then S (count_from sub (String.length sub - 1) t)
             else count_from sub 0 t
      end
  end.

Definition count (sub s : string) : nat := count_from sub 0 s.

(** [template.format(args...)] for templates whose only replacement fields
    are the automatically numbered braces; a field without an argument
    is the IndexError of Python, here [None]. *)
Fixpoint format (template : string) (args : list string) : option string :=
  match template with
  | EmptyString => Some EmptyString
  | String c t =>
      match t with
      | String d t' =>
          if Ascii.eqb c "{" && Ascii.eqb d "}" then
            match args with
            | a :: args' => option_map (append a) (format t' args')
            | [] => None
            end
          else option_map (String c) (format t args)
      | EmptyString => Some (String c EmptyString)
      end
  end.

Definition hex_digit (n : nat) : ascii :=
  if (n <? 10)%nat then ascii_of_nat (48 + n) else ascii_of_nat (87 + n).

(** [str.isprintable] on a code point outside ASCII (0x80..0xFF): the
    controls 0x80-0x9F, the no-break space and the soft hyphen are not. *)
Definition printable_high (n : nat) : bool :=
  ((161 <=? n) && negb (n =? 173))%nat.

(** One character of [repr(s)] with the chosen quote. *)
Definition repr_char (quote : ascii) (c : ascii) : string :=
  let n := code c in
  if Ascii.eqb c quote || Ascii.eqb c "\" then String "\" (String c "")
  else if (n =? 9)%nat then "\t"
  else if (n =? 10)%nat then "\n"
  else if (n =? 13)%nat then "\r"
  else if ((n <? 32) || (n =? 127) || ((127 <? n) && negb (printable_high n)))%nat
       then String "\" (String "x"
              (String (hex_digit (n / 16)) (String (hex_digit (n mod 16)) "")))
  else String c "".

Fixpoint repr_body (quote : ascii) (s : string) : string :=
  match s with
  | EmptyString => EmptyString
  | String c t => repr_char quote c +++ repr_body quote t
  end.

Definition squote : ascii := "'".
Definition dquote : ascii := ascii_of_nat 34.

(** [repr(s)]: single quotes, unless [s] has a single quote and no
    double quote. *)
Definition repr (s : string) : string :=
  let quote :=
    if contains (String squote "") s && negb (contains (String dquote "") s)
    then dquote else squote in
  String quote (repr_body quote s +++ String quote "").

(** [", ".join(l)] *)
Fixpoint join_comma (l : list string) : string :=
  match l with
  | [] => ""
  | [x] => x
  | x :: t => x +++ ", " +++ join_comma t
  end.

(** [repr] of a list whose elements print as [l]. *)
Definition repr_list (l : list string) : string :=
  "[" +++ join_comma l +++ "]".

End PyStr.

(* ------------------------------------------------------------------ *)
(** * The fragment of Python's [re] that the rule uses *)

Module Re.

Definition newline : ascii := ascii_of_nat 10.

(** [.] without DOTALL: every character but the line feed. *)
Definition dot (c : ascii) : bool := negb (Ascii.eqb c newline).

(** [\d] on the code points 0..255: the ASCII digits. *)
Definition digit (c : ascii) : bool :=
  let n := PyStr.code c in ((48 <=? n) && (n <=? 57))%nat.

(** [\s] on the code points 0..255: TAB LF VT FF CR, the separators
    0x1C-0x1F, the space, NEL (0x85) and the no-break space (0xA0). *)
Definition space (c : ascii) : bool :=
  let n := PyStr.code c in
  (((9 <=? n) && (n <=? 13)) || ((28 <=? n) && (n <=? 32)) ||
   (n =? 133) || (n =? 160))%nat.

Inductive regex : Type :=
| Eps                          (* the empty pattern *)
| Chr (c : ascii)              (* a literal character *)
| Cls (p : ascii -> bool)      (* a character class *)
| Bol                          (* ^ *)
| Eol                          (* $ *)
| Look (r : regex)             (* (?=r) *)
| Cat (r1 r2 : regex)          (* r1 r2 *)
| Alt (r1 r2 : regex)          (* r1|r2 *)
| Star (p : ascii -> bool).    (* p*, greedy, for a character class p *)

(** The literal [s]. *)
Fixpoint lit (s : string) : regex :=
  match s with
  | EmptyString => Eps
  | String c t => Cat (Chr c) (lit t)
  end.

(** [r{n}] *)
Fixpoint rep (n : nat) (r : regex) : regex :=
  match n with
  | O => Eps
  | S k => Cat r (rep k r)
  end.

(** The ways [p*] matches at the head of [s], the longest first. *)
Fixpoint star (p : ascii -> bool) (s : string) : list string :=
  match s with
  | EmptyString => [s]
  | String c t => if p c then star p t ++ [s] else [s]
  end.

(** [run r bol s]: what is left of [s] after each way [r] matches at
    its head, in the order the backtracking matcher tries them.  [bol]
    says that [s] starts at position 0 of the subject.  [$] matches at
    the end of the subject and before a line feed that ends it. *)
Fixpoint run (r : regex) (bol : bool) (s : string) : list string :=
  match r with
  | Eps => [s]
  | Chr c =>
      match s with
      | String d t => if Ascii.eqb c d then [t] else []
      | EmptyString => []
      end
  | Cls p =>
      match s with
      | String d t => if p d then [t] else []
      | EmptyString => []
      end
  | Bol => if bol then [s] else []
  | Eol =>
      match s with
      | EmptyString => [s]
      | String d EmptyString => if Ascii.eqb d newline then [s] else []
      | _ => []
      end
  | Look r' => match run r' bol s with [] => [] | _ :: _ => [s] end
  | Cat r1 r2 =>
      flat_map
        (fun s1 => run r2 (bol && (String.length s1 =? String.length s)%nat) s1)
        (run r1 bol s)
  | Alt r1 r2 => run r1 bol s ++ run r2 bol s
  | Star p => star p s
  end.

(** A pattern with one capturing group: what stands before the group,
    the group, what stands after it. *)
Record pattern : Type := Pattern {
  before : regex;
  group : regex;
  after : regex
}.

(** The text between two suffixes [s1] and [s2] of one subject. *)
Definition between (s1 s2 : string) : string :=
  PyStr.slice_to (String.length s1 - String.length s2) s1.

(** The first match of [p] at the head of [s]: the text of the group
    and what is left of [s] after the match. *)
Definition match_at (p : pattern) (bol : bool) (s : string)
  : option (string * string) :=
  hd_error
    (flat_map (fun s1 =>
       flat_map (fun s2 =>
         map (fun s3 => (between s1 s2, s3))
             (run (after p)
                  (bol && (String.length s2 =? String.length s)%nat) s2))
         (run (group p)
              (bol && (String.length s1 =? String.length s)%nat) s1))
       (run (before p) bol s)).

Fixpoint search_from (p : pattern) (bol : bool) (s : string) : option string :=
  match match_at p bol s with
  | Some (g, _) => Some g
  | None =>
      match s with
      | EmptyString => None
      | String _ t => search_from p false t
      end
  end.

(** [re.search(p, s)]: the group of the leftmost match, [None] without
    a match. *)
Definition search (p : pattern) (s : string) : option string :=
  search_from p true s.

(** [re.findall(p, s)] scans from the left; after a match it goes on
    where the match ended.  A match that consumed nothing (none of the
    patterns passed to [findall] here has one) moves on by a character. *)
Fixpoint findall_from (fuel : nat) (p : pattern) (bol : bool) (s : string)
  : list string :=
  match fuel with
  | O => []
  | S fuel' =>
      let step :=
        match s with
        | EmptyString => []
        | String _ t => findall_from fuel' p false t
        end in
      match match_at p bol s with
      | Some (g, rest) =>
          g :: (if (String.length rest <? String.length s)%nat
                then findall_from fuel' p false rest
                else step)
      | None => step
      end
  end.

Definition findall (p : pattern) (s : string) : list string :=
  findall_from (S (String.length s)) p true s.

End Re.

(* ------------------------------------------------------------------ *)
(** * Module constants *)

(** [nameregex]: an escaped slash, then the group [.*]. *)
Definition nameregex : Re.pattern :=
  Re.Pattern (Re.Chr "/") (Re.Star Re.dot) Re.Eps.

Definition non_compliant_str : string :=
  "One or More Tags are NON_COMPLIANT on ECS Resource ({}). Results: ({})".
Definition compliant_str : string := "Tags are COMPLIANT on ECS Resource ({})".
Definition no_tags_str : string := "NO Tags at all on ECS Resource ({})".
Definition old_arn_str : string := "({}) uses old ARN and does not support TAGS".

(* ------------------------------------------------------------------ *)
(** * Data *)

(** A tag of a resource, the dictionary with the entries ['key'] and
    ['value']. *)
Record Tag : Type := mkTag { key : string; value : string }.

(** An entry of the describe_services response. *)
Record Service : Type := mkService { serviceArn : string; serviceName : string }.

(** rdklib's ComplianceType. *)
Inductive ComplianceType : Type := COMPLIANT | NON_COMPLIANT | NOT_APPLICABLE.

(** rdklib's Evaluation, with the fields the rule sets. *)
Record Evaluation : Type := mkEvaluation {
  complianceType : ComplianceType;
  resourceId : string;
  resourceType : string;
  annotation : string
}.

(** An element of the list [tag_regex_filtering] returns: the two-element
    list [[key, verdict]] or a plain string. *)
Inductive checked : Type :=
| Pair (k verdict : string)
| Str (s : string).

Definition repr_checked (c : checked) : string :=
  match c with
  | Pair k v => PyStr.repr_list [PyStr.repr k; PyStr.repr v]
  | Str s => PyStr.repr s
  end.

(** [str(tags_checked)] *)
Definition str_checked (l : list checked) : string :=
  PyStr.repr_list (map repr_checked l).

(** Keyword arguments of a client call. *)
Inductive arg : Type :=
| AInt (n : nat)
| AStr (s : string)
| AList (l : list string).

Definition kwargs : Type := list (string * arg).

(** A response dictionary of the ECS client: each entry is present or
    absent. *)
Record Response : Type := mkResponse {
  clusterArns : option (list string);
  taskDefinitionArns : option (list string);
  serviceArns : option (list string);
  tags : option (list Tag);
  services : option (list Service);
  NextToken : option string
}.

Inductive exn : Type :=
| AttributeError (name : string)
| KeyError
| IndexError
| ClientError (msg : string).

(** What a client method does with its keyword arguments. *)
Inductive reply : Type :=
| Reply (r : Response)
| Fails (e : exn).

(** The client object: its attributes by name. *)
Definition Client : Type := string -> option (kwargs -> reply).

(** A bound method: the name it was looked up under and its body. *)
Record callable : Type := mkCallable {
  method_name : string;
  body : kwargs -> reply
}.

(* ------------------------------------------------------------------ *)
(** * State, exceptions and fuel *)

Record State : Type := mkState {
  evaluations : list Evaluation;        (* the list the evaluators append to *)
  calls : list (string * kwargs)        (* the client calls made so far *)
}.

Inductive outcome (A : Type) : Type :=
| Ret (a : A)
| Raise (e : exn)
| OutOfFuel.
Arguments Ret {A} a.
Arguments Raise {A} e.
Arguments OutOfFuel {A}.

Definition M (A : Type) : Type := State -> outcome A * State.

Definition ret {A} (a : A) : M A := fun st => (Ret a, st).

Definition raise {A} (e : exn) : M A := fun st => (Raise e, st).

Definition bind {A B} (m : M A) (k : A -> M B) : M B :=
  fun st =>
    match m st with
    | (Ret a, st') => k a st'
    | (Raise e, st') => (Raise e, st')
    | (OutOfFuel, st') => (OutOfFuel, st')
    end.

Notation "x <- m ;; k" := (bind m (fun x => k))
  (at level 61, m at next level, right associativity).
Notation "m ;;; k" := (bind m (fun _ => k))
  (at level 61, right associativity).

(** [client.name] *)
Definition getattr (client : Client) (name : string) : M callable :=
  match client name with
  | Some f => ret (mkCallable name f)
  | None => raise (AttributeError name)
  end.

(** A call of [f] with the keyword arguments [kw]: it is logged, then
    answered. *)
Definition call (f : callable) (kw : kwargs) : M Response :=
  fun st =>
    let st' := mkState (evaluations st) (calls st ++ [(method_name f, kw)]) in
    match body f kw with
    | Reply r => (Ret r, st')
    | Fails e => (Raise e, st')
    end.

(** [response[response_key]] *)
Definition subscript {A} (entry : option A) : M A :=
  match entry with
  | Some a => ret a
  | None => raise KeyError
  end.

(** [l[0]] *)
Definition index0 {A} (l : list A) : M A :=
  match l with
  | a :: _ => ret a
  | [] => raise IndexError
  end.

(** [template.format(...)] as a step of the program. *)
Definition fmt (template : string) (args : list string) : M string :=
  match PyStr.format template args with
  | Some s => ret s
  | None => raise IndexError
  end.

(** [evaluations.append(e)] *)
Definition append_evaluation (e : Evaluation) : M unit :=
  fun st => (Ret tt, mkState (evaluations st ++ [e]) (calls st)).

(** [for x in l: body(x)] *)
Fixpoint for_each {A} (l : list A) (body : A -> M unit) : M unit :=
  match l with
  | [] => ret tt
  | x :: t => body x ;;; for_each t body
  end.

(** Truth value of [response.get('NextToken')]: [None] and the empty
    string are false. *)
Definition truthy (next_token : option string) : option string :=
  match next_token with
  | Some EmptyString => None
  | Some t => Some t
  | None => None
  end.

(* ------------------------------------------------------------------ *)
(** * fetch_all_items *)

(** The [while next_token:] loop.  The continuation call goes to the
    attribute of the client that is named [method], with the token as
    its only argument. *)
Fixpoint fetch_loop {A} (fuel : nat) (client : Client)
    (response_key : Response -> option (list A))
    (items : list A) (next_token : option string) : M (list A) :=
  match truthy next_token with
  | None => ret items
  | Some t =>
      match fuel with
      | O => fun st => (OutOfFuel, st)
      | S fuel' =>
          client_method <- getattr client "method" ;;
          response <- call client_method [("NextToken", AStr t)] ;;
          more <- subscript (response_key response) ;;
          fetch_loop fuel' client response_key (items ++ more)
                     (NextToken response)
      end
  end.

Definition fetch_all_items {A} (fuel : nat) (client : Client)
    (method : callable) (response_key : Response -> option (list A))
    (kw : kwargs) : M (list A) :=
  response <- (match kw with
               | _ :: _ => call method kw
               | [] => call method []
               end) ;;
  items <- subscript (response_key response) ;;
  fetch_loop fuel client response_key items (NextToken response).

(* ------------------------------------------------------------------ *)
(** * tag_regex_filtering *)

(** ["(uai[\d]{7})"] *)
Definition uai_value_regex_filter : Re.pattern :=
  Re.Pattern Re.Eps
             (Re.Cat (Re.lit "uai") (Re.rep 7 (Re.Cls Re.digit)))
             Re.Eps.

(** ["(?:^)(prd|stg|qa|tst|dev|lab)(?:(?= )|$)"] *)
Definition env_value_regex_filter : Re.pattern :=
  Re.Pattern Re.Bol
             (Re.Alt (Re.lit "prd") (Re.Alt (Re.lit "stg") (Re.Alt (Re.lit "qa")
               (Re.Alt (Re.lit "tst") (Re.Alt (Re.lit "dev") (Re.lit "lab"))))))
             (Re.Alt (Re.Look (Re.Chr " ")) Re.Eol).

(** ["(\s)"] *)
Definition name_value_regex_filter : Re.pattern :=
  Re.Pattern Re.Eps (Re.Cls Re.space) Re.Eps.

(** [if re.search(p, s):] *)
Definition found (p : Re.pattern) (s : string) : bool :=
  match Re.search p s with Some _ => true | None => false end.

(** The body of the loop over the tags: what is appended for one tag. *)
Definition check_tag (tag : Tag) : checked :=
  if PyStr.contains "uai" (PyStr.lower (key tag)) then
    if found uai_value_regex_filter (value tag)
    then Pair (key tag) "COMPLIANT"
    else Pair (key tag) "NON_COMPLIANT"
  else if PyStr.contains "env" (PyStr.lower (key tag)) then
    if found env_value_regex_filter (value tag)
    then Pair (key tag) "COMPLIANT"
    else Pair (key tag) "NON_COMPLIANT"
  else if PyStr.contains "Name" (key tag)
          || PyStr.contains "app" (PyStr.lower (key tag)) then
    if found name_value_regex_filter (value tag)
    then Pair (key tag) "NON_COMPLIANT"
    else Pair (key tag) "COMPLIANT"
  else Str "NO_TAGS".

Fixpoint tag_regex_filtering_from (tags_checked : list checked)
    (tags : list Tag) : list checked :=
  match tags with
  | [] => tags_checked
  | tag :: rest => tag_regex_filtering_from (tags_checked ++ [check_tag tag]) rest
  end.

Definition tag_regex_filtering (tags : list Tag) : list checked :=
  tag_regex_filtering_from [] tags.

(* ------------------------------------------------------------------ *)
(** * The evaluators *)

(** [str(tags_compliance).count(" 'COMPLIANT']")] *)
Definition compliance_count (tags_compliance : list checked) : nat :=
  PyStr.count " 'COMPLIANT']" (str_checked tags_compliance).

(** [template.format(...)[:255]] *)
Definition annotate (template : string) (args : list string) : M string :=
  s <- fmt template args ;;
  ret (PyStr.slice_to 255 s).

Definition taskDefinition_eval (fuel : nat) (ecs_service : Client)
    (task_definition_arn : string) (minimum_number_compliant : nat) : M unit :=
  let resource_type := "AWS::ECS::TaskDefinition" in
  task_definition_name <- index0 (Re.findall nameregex task_definition_arn) ;;
  list_tags <- getattr ecs_service "list_tags_for_resource" ;;
  tags_in_taskDefinition <-
    fetch_all_items fuel ecs_service list_tags tags
                    [("resourceArn", AStr task_definition_arn)] ;;
  let length_tags_in_taskDefinition := List.length tags_in_taskDefinition in
  if (length_tags_in_taskDefinition =? 0)%nat then
    annotation <- annotate no_tags_str [task_definition_name] ;;
    append_evaluation
      (mkEvaluation NON_COMPLIANT task_definition_arn resource_type annotation)
  else
    let tags_compliance := tag_regex_filtering tags_in_taskDefinition in
    if (compliance_count tags_compliance =? minimum_number_compliant)%nat then
      annotation <- annotate compliant_str [task_definition_name] ;;
      append_evaluation
        (mkEvaluation NON_COMPLIANT task_definition_arn resource_type annotation)
    else
      annotation <- annotate non_compliant_str
                      [task_definition_name; str_checked tags_compliance] ;;
      append_evaluation
        (mkEvaluation NON_COMPLIANT task_definition_arn resource_type annotation).

(** [sum(map(lambda x : 1 if '/' in x else 0, service_arn))] *)
Definition separators (service_arn : string) : nat :=
  list_sum (map (fun x => if PyStr.contains "/" x then 1 else 0)
                (PyStr.chars service_arn)).

Definition service_eval (fuel : nat) (ecs_service : Client)
    (service_arn : string) (minimum_number_compliant : nat)
    (service_name : string) : M unit :=
  let resource_type := "AWS::ECS::Service" in
  if (1 <? separators service_arn)%nat then
    list_tags <- getattr ecs_service "list_tags_for_resource" ;;
    tags_in_service <-
      fetch_all_items fuel ecs_service list_tags tags
                      [("resourceArn", AStr service_arn)] ;;
    let len_tags_in_service := List.length tags_in_service in
    if (len_tags_in_service =? 0)%nat then
      annotation <- annotate no_tags_str [service_name] ;;
      append_evaluation
        (mkEvaluation NON_COMPLIANT service_arn resource_type annotation)
    else
      let tags_compliance := tag_regex_filtering tags_in_service in
      if (compliance_count tags_compliance =? minimum_number_compliant)%nat then
        annotation <- annotate compliant_str [service_name] ;;
        append_evaluation
          (mkEvaluation NON_COMPLIANT service_arn resource_type annotation)
      else
        annotation <- annotate non_compliant_str
                        [service_name; str_checked tags_compliance] ;;
        append_evaluation
          (mkEvaluation NON_COMPLIANT service_arn resource_type annotation)
  else
    annotation <- annotate old_arn_str [service_name] ;;
    append_evaluation
      (mkEvaluation NON_COMPLIANT service_arn resource_type annotation).

Definition cluster_eval (fuel : nat) (ecs_service : Client)
    (cluster : string) (minimum_number_compliant : nat)
    (clustername : string) : M unit :=
  let resource_type := "AWS::ECS::Cluster" in
  list_tags <- getattr ecs_service "list_tags_for_resource" ;;
  tags_in_cluster <-
    fetch_all_items fuel ecs_service list_tags tags
                    [("resourceArn", AStr cluster)] ;;
  if (List.length tags_in_cluster =? 0)%nat then
    annotation <- annotate no_tags_str [clustername] ;;
    append_evaluation
      (mkEvaluation NON_COMPLIANT cluster resource_type annotation)
  else
    let tags_compliance := tag_regex_filtering tags_in_cluster in
    if (compliance_count tags_compliance =? minimum_number_compliant)%nat then
      annotation <- annotate compliant_str [clustername] ;;
      append_evaluation
        (mkEvaluation COMPLIANT cluster resource_type annotation)
    else
      annotation <- annotate non_compliant_str
                      [clustername; str_checked tags_compliance] ;;
      append_evaluation
        (mkEvaluation NON_COMPLIANT cluster resource_type annotation).

(* ------------------------------------------------------------------ *)
(** * evaluate_periodic *)

Section Rule.

(** rdklib's [clean_up_old_evaluations], which reports through the
    Config client: [None] when it returns, the exception when it
    raises. *)
Variable clean_up_old_evaluations : list Evaluation -> option exn.

(** [evaluations = []] *)
Definition new_evaluations : M unit :=
  fun st => (Ret tt, mkState [] (calls st)).

Definition get_evaluations : M (list Evaluation) :=
  fun st => (Ret (evaluations st), st).

(** The body of the loop over the clusters. *)
Definition walk_cluster (fuel : nat) (ecs_service : Client)
    (minimum_number_compliant : nat) (cluster : string) : M unit :=
  clustername <- index0 (Re.findall nameregex cluster) ;;
  cluster_eval fuel ecs_service cluster minimum_number_compliant clustername ;;;
  list_services <- getattr ecs_service "list_services" ;;
  all_services_in_cluster <-
    fetch_all_items fuel ecs_service list_services serviceArns
                    [("cluster", AStr cluster); ("maxResults", AInt 100)] ;;
  if (0 <? List.length all_services_in_cluster)%nat then
    describe_services <- getattr ecs_service "describe_services" ;;
    list_describe_services <-
      call describe_services
           [("cluster", AStr cluster); ("services", AList all_services_in_cluster)] ;;
    described <- subscript (services list_describe_services) ;;
    for_each described (fun service =>
      let service_arn := serviceArn service in
      let service_name := serviceName service in
      service_eval fuel ecs_service service_arn minimum_number_compliant
                   service_name)
  else ret tt.

(** [ecs_service] is the client that [client_factory.build_client('ecs')]
    returns. *)
Definition evaluate_periodic (fuel : nat) (ecs_service : Client)
  : M (list Evaluation) :=
  list_clusters_method <- getattr ecs_service "list_clusters" ;;
  list_clusters <-
    fetch_all_items fuel ecs_service list_clusters_method clusterArns
                    [("maxResults", AInt 100)] ;;
  list_task_definitions <- getattr ecs_service "list_task_definitions" ;;
  task_definition_arns <-
    fetch_all_items fuel ecs_service list_task_definitions taskDefinitionArns
                    [("maxResults", AInt 100)] ;;
  new_evaluations ;;;
  let minimum_number_compliant := 3 in
  for_each task_definition_arns (fun task_definition_arn =>
    taskDefinition_eval fuel ecs_service task_definition_arn
                        minimum_number_compliant) ;;;
  for_each list_clusters
           (walk_cluster fuel ecs_service minimum_number_compliant) ;;;
  result <- get_evaluations ;;
  match result with
  | _ :: _ =>
      match clean_up_old_evaluations result with
      | None => ret result
      | Some e => raise e
      end
  | [] => ret []
  end.

End Rule.

(* ------------------------------------------------------------------ *)
(** * Clients for the examples *)

Definition empty_response : Response :=
  mkResponse None None None None None None.

Definition tags_response (l : list Tag) : Response :=
  mkResponse None None None (Some l) None None.

Definition initial : State := mkState [] [].

(** The keyword argument [name] of a call, when it is a string. *)
Fixpoint kwarg_str (name : string) (kw : kwargs) : option string :=
  match kw with
  | [] => None
  | (n, a) :: rest =>
      if String.eqb n name
      then match a with AStr s => Some s | _ => None end
      else kwarg_str name rest
  end.

Definition three_good_tags : list Tag :=
  [mkTag "uai" "uai1234567"; mkTag "env" "prd"; mkTag "Name" "web"].

(** A client that only knows [list_tags_for_resource] and answers it
    with [l] in one page whatever the resource. *)
Definition tags_client (l : list Tag) : Client :=
  fun name =>
    if String.eqb name "list_tags_for_resource"
    then Some (fun _ => Reply (tags_response l))
    else None.

(** A client without an attribute named [method], as a boto3 client is,
    whose [list_clusters] answers in two pages. *)
Definition two_page_client : Client :=
  fun name =>
    if String.eqb name "list_clusters"
    then Some (fun kw =>
                 match kwarg_str "NextToken" kw with
                 | None =>
                     Reply (mkResponse (Some ["cluster/a"]) None None None None
                                       (Some "t1"))
                 | Some _ =>
                     Reply (mkResponse (Some ["cluster/b"]) None None None None
                                       None)
                 end)
    else None.

Definition cluster1 : string := "arn:aws:ecs:us-east-1:533271940600:cluster/c1".
Definition cluster2 : string := "arn:aws:ecs:us-east-1:533271940600:cluster/c2".
Definition task1 : string :=
  "arn:aws:ecs:us-east-1:533271940600:task-definition/users:1".
Definition task2 : string :=
  "arn:aws:ecs:us-east-1:533271940600:task-definition/users:2".
Definition task3 : string :=
  "arn:aws:ecs:us-east-1:533271940600:task-definition/orders:1".
Definition service1 : Service :=
  mkService "arn:aws:ecs:us-east-1:533271940600:service/c2/web" "web".
Definition service2 : Service :=
  mkService "arn:aws:ecs:us-east-1:533271940600:service/api" "api".

(** A client for three task definitions and two clusters, the first
    without services and the second with two; every answer fits one
    page, and only the first task definition has tags. *)
Definition fleet_client : Client :=
  fun name =>
    if String.eqb name "list_clusters" then
      Some (fun _ => Reply (mkResponse (Some [cluster1; cluster2])
                                       None None None None None))
    else if String.eqb name "list_task_definitions" then
      Some (fun _ => Reply (mkResponse None (Some [task1; task2; task3])
                                       None None None None))
    else if String.eqb name "list_tags_for_resource" then
      Some (fun kw =>
              match kwarg_str "resourceArn" kw with
              | Some arn =>
                  Reply (tags_response
                           (if String.eqb arn task1 then three_good_tags else []))
              | None => Fails (ClientError "resourceArn is required")
              end)
    else if String.eqb name "list_services" then
      Some (fun kw =>
              match kwarg_str "cluster" kw with
              | Some c =>
                  Reply (mkResponse None None
                           (Some (if String.eqb c cluster2
                                  then [serviceArn service1; serviceArn service2]
                                  else []))
                           None None None)
              | None => Fails (ClientError "cluster is required")
              end)
    else if String.eqb name "describe_services" then
      Some (fun _ => Reply (mkResponse None None None None
                                       (Some [service1; service2]) None))
    else None.

(** [c * n] *)
Fixpoint repeat_char (c : ascii) (n : nat) : string :=
  match n with
  | O => EmptyString
  | S k => String c (repeat_char c k)
  end.

(** A client whose clusters listing has an entry without a separator. *)
Definition odd_cluster_client : Client :=
  fun name =>
    if String.eqb name "list_clusters" then
      Some (fun _ => Reply (mkResponse (Some ["default"])
                                       None None None None None))
    else if String.eqb name "list_task_definitions" then
      Some (fun _ => Reply (mkResponse None (Some []) None None None None))
    else None.

(* ------------------------------------------------------------------ *)
(** * Notions used in the statements *)

(** [c in s] for a character [c], as a proposition. *)
Fixpoint occurs (c : ascii) (s : string) : Prop :=
  match s with
  | EmptyString => False
  | String d t => c = d \/ occurs c t
  end.

(** The characters of [s] up to its first line feed. *)
Fixpoint line (s : string) : string :=
  match s with
  | EmptyString => EmptyString
  | String c t => if Re.dot c then String c (line t) else EmptyString
  end.

(** What follows them. *)
Fixpoint after_line (s : string) : string :=
  match s with
  | EmptyString => EmptyString
  | String c t => if Re.dot c then after_line t else s
  end.

(** Every character of [s] is in the class [p]. *)
Fixpoint all_chars (p : ascii -> bool) (s : string) : bool :=
  match s with
  | EmptyString => true
  | String c t => p c && all_chars p t
  end.

(** The number of characters of [s] equal to [c]. *)
Fixpoint count_char (c : ascii) (s : string) : nat :=
  match s with
  | EmptyString => 0
  | String d t => (if Ascii.eqb c d then 1 else 0) + count_char c t
  end.

(** What follows the last [c] of [s]; [s] itself when it has none. *)
Fixpoint after_last (c : ascii) (s : string) : string :=
  match s with
  | EmptyString => EmptyString
  | String d t =>
      if PyStr.contains (String c "") t then after_last c t
      else if Ascii.eqb c d then t else s
  end.

(** [v] has, somewhere, the letters uai followed by seven digits. *)
Definition uai_then_seven_digits (v : string) : Prop :=
  exists pre d post,
    v = pre +++ "uai" +++ d +++ post /\
    String.length d = 7 /\ all_chars Re.digit d = true.

(** The environment names of [env_value_regex_filter]. *)
Definition environments : list string :=
  ["prd"; "stg"; "qa"; "tst"; "dev"; "lab"].

(** [v] is, from its start, an environment name followed by a space or
    by the end of the string. *)
Definition environment_then_space_or_end (v : string) : Prop :=
  exists w rest,
    In w environments /\ v = w +++ rest /\
    (rest = "" \/ exists rest', rest = String " " rest').

(** The same, where a line feed that ends the string also counts as its
    end. *)
Definition environment_then_space_or_last_line_end (v : string) : Prop :=
  exists w rest,
    In w environments /\ v = w +++ rest /\
    (rest = "" \/ rest = String Re.newline "" \/
     exists rest', rest = String " " rest').

(** The annotation texts of the spec, with the name filled in. *)
Definition no_tags_text (name : string) : string :=
  "NO Tags at all on ECS Resource (" +++ name +++ ")".
Definition compliant_text (name : string) : string :=
  "Tags are COMPLIANT on ECS Resource (" +++ name +++ ")".
Definition non_compliant_text (name results : string) : string :=
  "One or More Tags are NON_COMPLIANT on ECS Resource (" +++ name +++
  "). Results: (" +++ results +++ ")".
Definition old_arn_text (name : string) : string :=
  "(" +++ name +++ ") uses old ARN and does not support TAGS".

(** The state after [evaluations.append(e)]. *)
Definition push (e : Evaluation) (st : State) : State :=
  mkState (evaluations st ++ [e]) (calls st).

(** The evaluation that the three evaluators build from the fetched tags
    [l]; [when_count_met] is the compliance type each of them writes in
    the branch where the count equals the minimum. *)
Definition tags_evaluation (when_count_met : ComplianceType)
    (id type name : string) (minimum : nat) (l : list Tag) : Evaluation :=
  match l with
  | [] => mkEvaluation NON_COMPLIANT id type
                       (PyStr.slice_to 255 (no_tags_text name))
  | _ :: _ =>
      let checked := tag_regex_filtering l in
      if (compliance_count checked =? minimum)%nat
      then mkEvaluation when_count_met id type
                        (PyStr.slice_to 255 (compliant_text name))
      else mkEvaluation NON_COMPLIANT id type
             (PyStr.slice_to 255 (non_compliant_text name (str_checked checked)))
  end.

(** The step of the program leaves the list of evaluations as it is. *)
Definition keeps {A} (m : M A) : Prop :=
  forall st, evaluations (snd (m st)) = evaluations st.

(** The tag-fetch collaborator, asked by [fetch_all_items] in state [st]
    for the tags of [arn], returns [l] and leaves state [st1]. *)
Definition fetches_tags (fuel : nat) (client : Client) (arn : string)
    (st : State) (l : list Tag) (st1 : State) : Prop :=
  exists m,
    client "list_tags_for_resource" = Some m /\
    fetch_all_items fuel client (mkCallable "list_tags_for_resource" m) tags
                    [("resourceArn", AStr arn)] st = (Ret l, st1).

(** The annotation of [e] is [text], cut to its first 255 characters. *)
Definition annotated (e : Evaluation) (text : string) : Prop :=
  annotation e = PyStr.slice_to 255 text /\
  String.length (annotation e) <= 255 /\
  (255 < String.length text -> String.length (annotation e) = 255) /\
  (String.length text <= 255 -> annotation e = text).

(** [text] is one of the four annotation texts, filled in. *)
Definition template_instance (text : string) : Prop :=
  exists name,
    text = no_tags_text name \/ text = compliant_text name \/
    text = old_arn_text name \/ exists results, text = non_compliant_text name results.

(** Every annotation of the batch has at most 255 characters. *)
Definition bounded (batch : list Evaluation) : Prop :=
  Forall (fun e => String.length (annotation e) <= 255) batch.

(** A step that returns keeps the annotations of the evaluations within
    the bound. *)
Definition keeps_bounded {A} (m : M A) : Prop :=
  forall st a st', bounded (evaluations st) -> m st = (Ret a, st') ->
                   bounded (evaluations st').

(** The step returns [a] in every state. *)
Definition returns {A} (m : M A) (a : A) : Prop :=
  forall st, fst (m st) = Ret a.

(** The step returns in no state. *)
Definition fails {A} (m : M A) : Prop :=
  forall st a, fst (m st) <> Ret a.

(** The client has the method [name], and [fetch_all_items] on it with
    the arguments [kw] returns [items]. *)
Definition lists {A} (fuel : nat) (client : Client) (name : string)
    (response_key : Response -> option (list A)) (kw : kwargs)
    (items : list A) : Prop :=
  exists m,
    client name = Some m /\
    returns (fetch_all_items fuel client (mkCallable name m) response_key kw)
            items.

(** The tag-fetch collaborator answers for [arn]. *)
Definition has_tags (fuel : nat) (client : Client) (arn : string) : Prop :=
  exists l, lists fuel client "list_tags_for_resource" tags
                  [("resourceArn", AStr arn)] l.

(** The describe collaborator, asked for the services [described] of
    [cluster], answers with them; it is not asked when there are none. *)
Definition describes (client : Client) (cluster : string)
    (described : list Service) : Prop :=
  described = [] \/
  exists d r,
    client "describe_services" = Some d /\
    d [("cluster", AStr cluster); ("services", AList (map serviceArn described))]
      = Reply r /\
    services r = Some described.

(** A fleet: the task definitions, and the clusters each with its
    services, in listing order. *)
Record fleet : Type := mkFleet {
  fleet_task_definitions : list string;
  fleet_clusters : list (string * list Service)
}.

(** The collaborators answer for the fleet [f]: the listings return its
    task definitions, clusters and services, the identifiers of task
    definitions and clusters have a separator, and the tags of every
    resource that is asked for them can be fetched. *)
Definition serves (fuel : nat) (client : Client) (f : fleet) : Prop :=
  lists fuel client "list_clusters" clusterArns [("maxResults", AInt 100)]
        (map fst (fleet_clusters f)) /\
  lists fuel client "list_task_definitions" taskDefinitionArns
        [("maxResults", AInt 100)] (fleet_task_definitions f) /\
  Forall (fun task => occurs "/" task /\ has_tags fuel client task)
         (fleet_task_definitions f) /\
  Forall (fun c =>
            occurs "/" (fst c) /\ has_tags fuel client (fst c) /\
            lists fuel client "list_services" serviceArns
                  [("cluster", AStr (fst c)); ("maxResults", AInt 100)]
                  (map serviceArn (snd c)) /\
            describes client (fst c) (snd c) /\
            Forall (fun s => 2 <= count_char "/" (serviceArn s) ->
                             has_tags fuel client (serviceArn s))
                   (snd c))
         (fleet_clusters f).

(** The resource and its type, for each evaluation. *)
Definition id_type (e : Evaluation) : string * string :=
  (resourceId e, resourceType e).

(** The batch order of the spec: the task definitions, then cluster by
    cluster the cluster followed by its services. *)
Definition expected_batch (f : fleet) : list (string * string) :=
  map (fun task => (task, "AWS::ECS::TaskDefinition")) (fleet_task_definitions f) ++
  flat_map (fun c => (fst c, "AWS::ECS::Cluster") ::
                     map (fun s => (serviceArn s, "AWS::ECS::Service")) (snd c))
           (fleet_clusters f).

(** The step returns in every state and appends evaluations for the
    resources [ids], in this order. *)
Definition emits (m : M unit) (ids : list (string * string)) : Prop :=
  forall st, exists st',
    m st = (Ret tt, st') /\
    map id_type (evaluations st') = map id_type (evaluations st) ++ ids.

(** The fleet of [fleet_client]. *)
Definition small_fleet : fleet :=
  mkFleet [task1; task2; task3] [(cluster1, []); (cluster2, [service1; service2])].

(** The number of entries the classifier marked COMPLIANT. *)
Fixpoint count_compliant (l : list checked) : nat :=
  match l with
  | [] => 0
  | Pair _ v :: t => (if String.eqb v "COMPLIANT" then 1 else 0) + count_compliant t
  | Str _ :: t => count_compliant t
  end.

(** A space when [u] ends with one, nothing otherwise. *)
Fixpoint last_space (u : string) : string :=
  match u with
  | EmptyString => EmptyString
  | String c EmptyString => if Ascii.eqb c " " then " " else EmptyString
  | String _ t => last_space t
  end.

(** The occurrences that [compliance_count] counts in a printed list. *)
Definition occurrences (s : string) : nat :=
  PyStr.count_from " 'COMPLIANT']" 0 s.

(* ------------------------------------------------------------------ *)
(** * Further notions and clients *)

(** [v] has a whitespace character. *)
Definition has_whitespace (v : string) : Prop :=
  exists pre c post, v = pre +++ String c post /\ Re.space c = true.

(** The key is of none of the kinds the classifier knows. *)
Definition unrecognised (k : string) : Prop :=
  PyStr.contains "uai" (PyStr.lower k) = false /\
  PyStr.contains "env" (PyStr.lower k) = false /\
  PyStr.contains "Name" k = false /\
  PyStr.contains "app" (PyStr.lower k) = false.

(** No key of [l] has a single quote. *)
Definition plain_keys (l : list Tag) : Prop :=
  Forall (fun t => ~ occurs "'" (key t)) l.

(** A call of the loop of [fetch_all_items]: [client.method] with the
    token as its only argument. *)
Definition continuation_call (token : string) : string * kwargs :=
  ("method", [("NextToken", AStr token)]).

(** Starting with the token of the last response, [m] serves the
    [pages], each under the token before it, and the last page carries
    no token. *)
Fixpoint follows {A} (m : kwargs -> reply)
    (response_key : Response -> option (list A))
    (next_token : option string) (pages : list (string * list A)) : Prop :=
  match pages with
  | [] => truthy next_token = None
  | (t, items) :: rest =>
      truthy next_token = Some t /\
      exists r, m [("NextToken", AStr t)] = Reply r /\
                response_key r = Some items /\
                follows m response_key (NextToken r) rest
  end.

(** The step appends at most one evaluation, for the resource [id] of
    type [type], and only when it returns. *)
Definition appends_at_most_one (id type : string) (m : M unit) : Prop :=
  forall st,
    (fst (m st) = Ret tt /\
     exists e, evaluations (snd (m st)) = evaluations st ++ [e] /\
               resourceId e = id /\ resourceType e = type) \/
    (fst (m st) <> Ret tt /\ evaluations (snd (m st)) = evaluations st).

(** A step that returns keeps [P] true of every evaluation. *)
Definition keeps_all {A} (P : Evaluation -> Prop) (m : M A) : Prop :=
  forall st a st', Forall P (evaluations st) -> m st = (Ret a, st') ->
                   Forall P (evaluations st').

(** What holds of every evaluation of a batch: its type is one of the
    three, its compliance type is COMPLIANT or NON_COMPLIANT, and it is
    COMPLIANT only for a cluster. *)
Definition well_formed_verdict (e : Evaluation) : Prop :=
  In (resourceType e)
     ["AWS::ECS::TaskDefinition"; "AWS::ECS::Cluster"; "AWS::ECS::Service"] /\
  complianceType e <> NOT_APPLICABLE /\
  (complianceType e = COMPLIANT -> resourceType e = "AWS::ECS::Cluster").

(** The client methods the rule may call. *)
Definition api : list string :=
  ["list_clusters"; "list_task_definitions"; "list_tags_for_resource";
   "list_services"; "describe_services"; "method"].

(** Whatever the outcome, the step only adds calls of [api] methods to
    the log. *)
Definition uses_api {A} (m : M A) : Prop :=
  forall st, exists new,
    calls (snd (m st)) = calls st ++ new /\
    Forall (fun c => In (fst c) api) new.

(** A client with an attribute named [method], as a mock has: its
    clusters come in three pages. *)
Definition paged_client : Client :=
  fun name =>
    if String.eqb name "list_clusters" then
      Some (fun _ => Reply (mkResponse (Some ["cluster/a"]) None None None None
                                       (Some "t1")))
    else if String.eqb name "method" then
      Some (fun kw =>
              match kwarg_str "NextToken" kw with
              | Some t =>
                  if String.eqb t "t1"
                  then Reply (mkResponse (Some ["cluster/b"; "cluster/c"])
                                         None None None None (Some "t2"))
                  else Reply (mkResponse (Some ["cluster/d"])
                                         None None None None None)
              | None => Fails (ClientError "NextToken is required")
              end)
    else None.

(** A client whose [method] hands out a token with every page. *)
Definition endless_client : Client :=
  fun name =>
    if String.eqb name "list_clusters" || String.eqb name "method" then
      Some (fun _ => Reply (mkResponse (Some ["cluster/a"]) None None None None
                                       (Some "again")))
    else None.

(** A client whose [list_clusters] is refused. *)
Definition refused_client : Client :=
  fun name =>
    if String.eqb name "list_clusters"
    then Some (fun _ => Fails (ClientError "AccessDeniedException"))
    else None.

(** A client whose [list_clusters] answers without the entry asked for. *)
Definition keyless_client : Client :=
  fun name =>
    if String.eqb name "list_clusters"
    then Some (fun _ => Reply empty_response)
    else None.

(** A client without resources. *)
Definition bare_client : Client :=
  fun name =>
    if String.eqb name "list_clusters" then
      Some (fun _ => Reply (mkResponse (Some []) None None None None None))
    else if String.eqb name "list_task_definitions" then
      Some (fun _ => Reply (mkResponse None (Some []) None None None None))
    else None.

(** A client whose [describe_services] answers with other services than
    the listed one. *)
Definition stale_client : Client :=
  fun name =>
    if String.eqb name "list_tags_for_resource" then
      Some (fun _ => Reply (tags_response []))
    else if String.eqb name "list_services" then
      Some (fun _ => Reply (mkResponse None None
                                       (Some ["service/c1/gone"])
                                       None None None))
    else if String.eqb name "describe_services" then
      Some (fun _ => Reply (mkResponse None None None None
                                       (Some [mkService "service/c1/web" "web";
                                              mkService "service/api" "api"])
                                       None))
    else None.

(** A client with one task definition and one cluster without services,
    both with three good tags. *)
Definition tagged_client : Client :=
  fun name =>
    if String.eqb name "list_clusters" then
      Some (fun _ => Reply (mkResponse (Some [cluster1]) None None None None None))
    else if String.eqb name "list_task_definitions" then
      Some (fun _ => Reply (mkResponse None (Some [task1]) None None None None))
    else if String.eqb name "list_tags_for_resource" then
      Some (fun _ => Reply (tags_response three_good_tags))
    else if String.eqb name "list_services" then
      Some (fun _ => Reply (mkResponse None None (Some []) None None None))
    else None.

(* ------------------------------------------------------------------ *)
(** * The model on small inputs *)

Example lower_Environment : PyStr.lower "Environment-UAI" = "environment-uai".
Proof. reflexivity. Qed.

Example count_nonoverlapping : PyStr.count "aa" "aaaaa" = 2.
Proof. reflexivity. Qed.

Example repr_plain : PyStr.repr "uai-tag" = "'uai-tag'".
Proof. reflexivity. Qed.

Example repr_with_quote : PyStr.repr "it's" = String PyStr.dquote ("it's" +++ String PyStr.dquote "").
Proof. reflexivity. Qed.

Example format_two :
  PyStr.format "a ({}) b ({})" ["x"; "yz"] = Some "a (x) b (yz)".
Proof. reflexivity. Qed.

Example nameregex_task :
  Re.findall nameregex "arn:aws:ecs:us-east-1:533271940600:task-definition/users:1"
  = ["users:1"].
Proof. reflexivity. Qed.

Example nameregex_two_separators :
  Re.findall nameregex "arn:aws:ecs:us-east-1:123456789123:service/cluster_name/api"
  = ["cluster_name/api"].
Proof. reflexivity. Qed.

Example nameregex_none : Re.findall nameregex "no separator" = [].
Proof. reflexivity. Qed.

Example nameregex_lines :
  Re.findall nameregex ("a/b" +++ String Re.newline "c/d") = ["b"; "d"].
Proof. reflexivity. Qed.

Example classify_three :
  tag_regex_filtering
    [mkTag "uai-tag" "uai1234567"; mkTag "Environment" "prd";
     mkTag "Name" "web"; mkTag "owner" "me"; mkTag "env2" "production"]
  = [Pair "uai-tag" "COMPLIANT"; Pair "Environment" "COMPLIANT";
     Pair "Name" "COMPLIANT"; Str "NO_TAGS"; Pair "env2" "NON_COMPLIANT"].
Proof. reflexivity. Qed.

Example str_of_checked :
  str_checked [Pair "uai-tag" "COMPLIANT"; Str "NO_TAGS"; Pair "e" "NON_COMPLIANT"]
  = "[['uai-tag', 'COMPLIANT'], 'NO_TAGS', ['e', 'NON_COMPLIANT']]".
Proof. reflexivity. Qed.

Example task_definition_three_good_tags :
  fst (taskDefinition_eval 0 (tags_client three_good_tags)
         "arn:aws:ecs:us-east-1:533271940600:task-definition/users:1" 3 initial)
  = Ret tt.
Proof. reflexivity. Qed.

Example small_fleet_batch :
  fst (evaluate_periodic (fun _ => None) 0 fleet_client initial)
  = Ret [mkEvaluation NON_COMPLIANT task1 "AWS::ECS::TaskDefinition"
           "Tags are COMPLIANT on ECS Resource (users:1)";
         mkEvaluation NON_COMPLIANT task2 "AWS::ECS::TaskDefinition"
           "NO Tags at all on ECS Resource (users:2)";
         mkEvaluation NON_COMPLIANT task3 "AWS::ECS::TaskDefinition"
           "NO Tags at all on ECS Resource (orders:1)";
         mkEvaluation NON_COMPLIANT cluster1 "AWS::ECS::Cluster"
           "NO Tags at all on ECS Resource (c1)";
         mkEvaluation NON_COMPLIANT cluster2 "AWS::ECS::Cluster"
           "NO Tags at all on ECS Resource (c2)";
         mkEvaluation NON_COMPLIANT (serviceArn service1) "AWS::ECS::Service"
           "NO Tags at all on ECS Resource (web)";
         mkEvaluation NON_COMPLIANT (serviceArn service2) "AWS::ECS::Service"
           "(api) uses old ARN and does not support TAGS"].
Proof. reflexivity. Qed.

Example two_pages_raise :
  fst (evaluate_periodic (fun _ => None) 5 two_page_client initial)
  = Raise (AttributeError "method").
Proof. reflexivity. Qed.

(** A key may itself carry the counted text: two good tags then count
    as three. *)
Example count_reads_the_keys :
  let l := [mkTag "env 'COMPLIANT']" "zz"; mkTag "uai" "uai1234567";
            mkTag "env" "prd"] in
  count_compliant (tag_regex_filtering l) = 2 /\
  compliance_count (tag_regex_filtering l) = 3.
Proof. split; reflexivity. Qed.

(* ------------------------------------------------------------------ *)
(** * Facts about strings *)

#[local] Arguments Ascii.eqb : simpl never.
#[local] Arguments Nat.leb : simpl never.
#[local] Arguments Nat.ltb : simpl never.

Lemma length_slice_to (n : nat) (s : string) :
  String.length (PyStr.slice_to n s) = Nat.min n (String.length s).
Proof.
  revert s; induction n as [|n IH]; intros [|c t]; simpl; auto.
Qed.

Lemma slice_to_all (n : nat) (s : string) :
  String.length s <= n -> PyStr.slice_to n s = s.
Proof.
  revert s; induction n as [|n IH]; intros [|c t]; simpl; intros H;
    try reflexivity; try lia.
  f_equal; apply IH; lia.
Qed.

Lemma length_append (s t : string) :
  String.length (s +++ t) = String.length s + String.length t.
Proof. induction s as [|c s IH]; simpl; auto. Qed.

Lemma append_assoc (s t u : string) : (s +++ t) +++ u = s +++ t +++ u.
Proof. induction s as [|c s IH]; simpl; congruence. Qed.

Lemma slice_to_append (s t : string) :
  PyStr.slice_to (String.length s) (s +++ t) = s.
Proof. induction s as [|c s IH]; simpl; [destruct t|]; congruence. Qed.

Lemma contains_char (c : ascii) (s : string) :
  PyStr.contains (String c "") s = true <-> occurs c s.
Proof.
  induction s as [|d t IH]; simpl.
  - split; [discriminate | tauto].
  - destruct (Ascii.eqb_spec c d) as [->|Hne]; simpl.
    + destruct t; simpl; tauto.
    + rewrite IH. tauto.
Qed.

Lemma contains_char_false (c : ascii) (s : string) :
  PyStr.contains (String c "") s = false <-> ~ occurs c s.
Proof.
  rewrite <- contains_char. destruct (PyStr.contains _ s); split; congruence.
Qed.

(* ------------------------------------------------------------------ *)
(** * Name extraction: [re.findall(nameregex, arn)[0]] *)

Lemma line_split (s : string) : s = line s +++ after_line s.
Proof.
  induction s as [|c t IH]; simpl; auto.
  destruct (Re.dot c); simpl; congruence.
Qed.

Lemma line_no_newline (s : string) :
  ~ occurs Re.newline s -> line s = s.
Proof.
  induction s as [|c t IH]; simpl; auto.
  intros H. unfold Re.dot.
  destruct (Ascii.eqb_spec c Re.newline) as [->|Hne]; simpl.
  - tauto.
  - f_equal. apply IH. tauto.
Qed.

Lemma star_head (p : ascii -> bool) (s : string) :
  exists more, Re.star p s = hd s (Re.star p s) :: more.
Proof.
  induction s as [|c t [more IH]]; simpl.
  - now exists [].
  - destruct (p c); [|now exists []].
    rewrite IH. simpl. now eexists.
Qed.

Lemma star_dot_head (s : string) : hd s (Re.star Re.dot s) = after_line s.
Proof.
  induction s as [|c t IH]; simpl; auto.
  destruct (Re.dot c); auto.
  destruct (star_head Re.dot t) as [more E]. rewrite E. simpl.
  rewrite <- IH. rewrite E. reflexivity.
Qed.

Lemma between_line (s : string) : Re.between s (after_line s) = line s.
Proof.
  unfold Re.between.
  rewrite (line_split s) at 1 3.
  rewrite length_append.
  replace (_ + _ - _) with (String.length (line s)) by lia.
  apply slice_to_append.
Qed.

Lemma match_at_nameregex_separator (bol : bool) (t : string) :
  Re.match_at nameregex bol (String "/" t) = Some (line t, after_line t).
Proof.
  unfold Re.match_at, nameregex; simpl.
  destruct (star_head Re.dot t) as [more E].
  rewrite E; simpl.
  rewrite star_dot_head, between_line. reflexivity.
Qed.

Lemma match_at_nameregex_other (bol : bool) (c : ascii) (t : string) :
  c <> "/"%char -> Re.match_at nameregex bol (String c t) = None.
Proof.
  intros H. unfold Re.match_at, nameregex; simpl.
  destruct (Ascii.eqb_spec "/" c); [congruence | reflexivity].
Qed.

Lemma findall_nameregex_none (fuel : nat) (bol : bool) (s : string) :
  ~ occurs "/" s -> Re.findall_from fuel nameregex bol s = [].
Proof.
  revert bol s; induction fuel as [|fuel IH]; intros bol s H; simpl; auto.
  destruct s as [|c t]; simpl in *.
  - reflexivity.
  - rewrite match_at_nameregex_other by (intros ->; tauto).
    apply IH. tauto.
Qed.

Lemma findall_nameregex_first (fuel : nat) (bol : bool) (pre rest : string) :
  ~ occurs "/" pre -> String.length pre < fuel ->
  exists more,
    Re.findall_from fuel nameregex bol (pre +++ String "/" rest)
    = line rest :: more.
Proof.
  revert bol pre; induction fuel as [|fuel IH]; intros bol pre H Hf; [lia|].
  destruct pre as [|c t]; simpl in *.
  - rewrite match_at_nameregex_separator. now eexists.
  - rewrite match_at_nameregex_other by (intros ->; tauto).
    apply IH; [tauto | lia].
Qed.

Lemma occurs_split (c : ascii) (s : string) :
  occurs c s ->
  exists pre rest, s = pre +++ String c rest /\ ~ occurs c pre.
Proof.
  induction s as [|d t IH]; simpl; [tauto|].
  destruct (Ascii.eqb_spec c d) as [->|Hne].
  - intros _. exists "", t. simpl. tauto.
  - intros [->|H]; [congruence|].
    destruct (IH H) as (pre & rest & -> & Hpre).
    exists (String d pre), rest. simpl. split; [reflexivity|]. tauto.
Qed.

Lemma occurs_append (c : ascii) (s t : string) :
  occurs c (s +++ t) <-> occurs c s \/ occurs c t.
Proof. induction s as [|d s IH]; simpl; tauto. Qed.

(* ------------------------------------------------------------------ *)
(** * What the matcher accepts *)

Lemma hd_error_some_iff {A} (l : list A) :
  hd_error l <> None <-> exists x, In x l.
Proof.
  destruct l as [|a l]; simpl; split.
  - congruence.
  - intros [x []].
  - intros _. exists a. auto.
  - discriminate.
Qed.

Lemma in_run_Chr (c : ascii) (bol : bool) (s t : string) :
  In t (Re.run (Re.Chr c) bol s) <-> s = String c t.
Proof.
  destruct s as [|d s]; simpl.
  - split; [tauto | discriminate].
  - destruct (Ascii.eqb_spec c d) as [->|Hne]; simpl.
    + split; [intros [->|[]]; reflexivity | intros [= ->]; auto].
    + split; [tauto | intros [= -> ->]; congruence].
Qed.

Lemma in_run_Cls (p : ascii -> bool) (bol : bool) (s t : string) :
  In t (Re.run (Re.Cls p) bol s) <-> exists d, s = String d t /\ p d = true.
Proof.
  destruct s as [|d s]; simpl.
  - split; [tauto | intros (? & [=] & _)].
  - destruct (p d) eqn:E; simpl.
    + split.
      * intros [->|[]]. eauto.
      * intros (d' & [= -> ->] & _). auto.
    + split; [tauto | intros (d' & [= -> ->] & ?); congruence].
Qed.

Lemma in_run_Cat (r1 r2 : Re.regex) (bol : bool) (s t : string) :
  In t (Re.run (Re.Cat r1 r2) bol s) <->
  exists s1, In s1 (Re.run r1 bol s) /\
             In t (Re.run r2 (bol && (String.length s1 =? String.length s)%nat) s1).
Proof. simpl. apply in_flat_map. Qed.

Lemma in_run_Alt (r1 r2 : Re.regex) (bol : bool) (s t : string) :
  In t (Re.run (Re.Alt r1 r2) bol s) <->
  In t (Re.run r1 bol s) \/ In t (Re.run r2 bol s).
Proof. simpl. apply in_app_iff. Qed.

Lemma in_run_Look (r : Re.regex) (bol : bool) (s t : string) :
  In t (Re.run (Re.Look r) bol s) <->
  t = s /\ exists u, In u (Re.run r bol s).
Proof.
  simpl. destruct (Re.run r bol s) as [|u l]; simpl.
  - split; [tauto | intros (_ & ? & [])].
  - split.
    + intros [->|[]]. eauto.
    + intros [-> _]. auto.
Qed.

Lemma in_run_Eol (bol : bool) (s t : string) :
  In t (Re.run Re.Eol bol s) <->
  t = s /\ (s = "" \/ s = String Re.newline "").
Proof.
  destruct s as [|d [|e s]]; simpl.
  - split; [intros [->|[]]; auto | intros [-> _]; auto].
  - destruct (Ascii.eqb_spec d Re.newline) as [->|Hne]; simpl.
    + split; [intros [->|[]]; auto | intros [-> _]; auto].
    + split; [tauto | intros (_ & [[=]|[= ->]]); congruence].
  - split; [tauto | intros (_ & [[=]|[=]])].
Qed.

Lemma in_run_lit (w : string) (bol : bool) (s t : string) :
  In t (Re.run (Re.lit w) bol s) <-> s = w +++ t.
Proof.
  revert bol s; induction w as [|c w IH]; intros bol s.
  - simpl. split; [intros [->|[]]; reflexivity | intros ->; auto].
  - cbn [Re.lit]. rewrite in_run_Cat. split.
    + intros (s1 & H1 & H2). apply in_run_Chr in H1. apply IH in H2.
      subst. reflexivity.
    + intros ->. exists (w +++ t). split.
      * apply in_run_Chr. reflexivity.
      * apply IH. reflexivity.
Qed.

Lemma in_run_rep_Cls (n : nat) (p : ascii -> bool) (bol : bool) (s t : string) :
  In t (Re.run (Re.rep n (Re.Cls p)) bol s) <->
  exists d, s = d +++ t /\ String.length d = n /\ all_chars p d = true.
Proof.
  revert bol s; induction n as [|n IH]; intros bol s.
  - simpl. split.
    + intros [->|[]]. exists "". auto.
    + intros (d & -> & Hd & _). destruct d; [auto | discriminate].
  - cbn [Re.rep]. rewrite in_run_Cat. split.
    + intros (s1 & H1 & H2). apply in_run_Cls in H1 as (c & -> & Hc).
      apply IH in H2 as (d & -> & Hd & Hall).
      exists (String c d). simpl. rewrite Hc, Hall, Hd. auto.
    + intros (d & -> & Hd & Hall). destruct d as [|c d]; [discriminate|].
      simpl in Hd, Hall. apply andb_true_iff in Hall as [Hc Hall].
      exists (d +++ t). split.
      * apply in_run_Cls. exists c. split; [reflexivity | assumption].
      * apply IH. exists d. inversion Hd. repeat split; auto.
Qed.

(** A match at the head of [s]: the three parts of the pattern match one
    after the other. *)
Lemma match_at_iff (p : Re.pattern) (bol : bool) (s : string) :
  Re.match_at p bol s <> None <->
  exists s1 s2 s3,
    In s1 (Re.run (Re.before p) bol s) /\
    In s2 (Re.run (Re.group p) (bol && (String.length s1 =? String.length s)%nat) s1) /\
    In s3 (Re.run (Re.after p) (bol && (String.length s2 =? String.length s)%nat) s2).
Proof.
  unfold Re.match_at. rewrite hd_error_some_iff. split.
  - intros ([g s3] & H). apply in_flat_map in H as (s1 & H1 & H).
    apply in_flat_map in H as (s2 & H2 & H).
    apply in_map_iff in H as (s3' & [= <- <-] & H3). eauto 6.
  - intros (s1 & s2 & s3 & H1 & H2 & H3).
    exists (Re.between s1 s2, s3).
    apply in_flat_map. exists s1. split; [assumption|].
    apply in_flat_map. exists s2. split; [assumption|].
    apply in_map. assumption.
Qed.

Lemma found_iff (p : Re.pattern) (bol : bool) (s : string) :
  Re.search_from p bol s <> None <->
  Re.match_at p bol s <> None \/
  exists c pre suf,
    s = String c pre +++ suf /\ Re.match_at p false suf <> None.
Proof.
  revert bol; induction s as [|c t IH]; intros bol; simpl.
  - destruct (Re.match_at p bol "") as [[g r]|]; split.
    + left. discriminate.
    + discriminate.
    + tauto.
    + intros [H|(c & pre & suf & [=] & _)]. congruence.
  - destruct (Re.match_at p bol (String c t)) as [[g r]|].
    + split; [left|]; discriminate.
    + rewrite IH. split.
      * intros [H|(d & pre & suf & -> & H)]; right.
        -- exists c, "", t. split; [reflexivity | assumption].
        -- exists c, (String d pre), suf. split; [reflexivity | assumption].
      * intros [H|(d & pre & suf & E & H)]; [congruence|].
        injection E as <- E.
        destruct pre as [|e pre]; simpl in E; subst.
        -- left. assumption.
        -- right. exists e, pre, suf. split; [reflexivity | assumption].
Qed.

Lemma found_true (p : Re.pattern) (s : string) :
  found p s = true <-> Re.search_from p true s <> None.
Proof.
  unfold found, Re.search. destruct (Re.search_from p true s); split;
    congruence.
Qed.

(** [tag_regex_filtering] checks the tags one by one. *)
Lemma tag_regex_filtering_from_map (acc : list checked) (l : list Tag) :
  tag_regex_filtering_from acc l = acc ++ map check_tag l.
Proof.
  revert acc; induction l as [|t l IH]; intros acc; simpl.
  - now rewrite app_nil_r.
  - rewrite IH, <- app_assoc. reflexivity.
Qed.

Lemma tag_regex_filtering_map (l : list Tag) :
  tag_regex_filtering l = map check_tag l.
Proof. apply tag_regex_filtering_from_map. Qed.

(** ** The uai filter *)

Lemma match_at_uai (bol : bool) (s : string) :
  Re.match_at uai_value_regex_filter bol s <> None <->
  exists d post,
    s = "uai" +++ d +++ post /\
    String.length d = 7 /\ all_chars Re.digit d = true.
Proof.
  rewrite match_at_iff. unfold uai_value_regex_filter.
  cbn [Re.before Re.group Re.after]. split.
  - intros (s1 & s2 & s3 & H1 & H2 & H3).
    simpl in H1. destruct H1 as [<-|[]].
    apply in_run_Cat in H2 as (u & Hu & H2).
    apply in_run_lit in Hu. apply in_run_rep_Cls in H2 as (d & -> & Hd & Hall).
    exists d, s2. auto.
  - intros (d & post & -> & Hd & Hall).
    exists ("uai" +++ d +++ post), post, post. repeat split.
    + simpl. auto.
    + apply in_run_Cat. exists (d +++ post). split.
      * apply in_run_lit. reflexivity.
      * apply in_run_rep_Cls. eauto.
    + simpl. auto.
Qed.

Lemma found_uai (v : string) :
  found uai_value_regex_filter v = true <-> uai_then_seven_digits v.
Proof.
  rewrite found_true, found_iff. unfold uai_then_seven_digits. split.
  - intros [H|(c & pre & suf & -> & H)];
      apply match_at_uai in H as (d & post & -> & Hd & Hall).
    + exists "", d, post. auto.
    + exists (String c pre), d, post. auto.
  - intros (pre & d & post & -> & Hd & Hall).
    destruct pre as [|c pre].
    + left. apply match_at_uai. exists d, post. auto.
    + right. exists c, pre, ("uai" +++ d +++ post). split; [reflexivity|].
      apply match_at_uai. exists d, post. auto.
Qed.

(** ** The env filter *)

Lemma match_at_env_not_start (s : string) :
  Re.match_at env_value_regex_filter false s = None.
Proof. reflexivity. Qed.

Lemma in_run_environments (bol : bool) (s t : string) :
  In t (Re.run (Re.group env_value_regex_filter) bol s) <->
  exists w, In w environments /\ s = w +++ t.
Proof.
  unfold env_value_regex_filter, environments; cbn [Re.group].
  repeat rewrite in_run_Alt. repeat rewrite in_run_lit. split.
  - intros H. decompose [or] H; eexists; (split; [|eassumption]); simpl; tauto.
  - intros (w & Hw & ->). simpl in Hw.
    decompose [or] Hw; subst; tauto.
Qed.

Lemma match_at_env (s : string) :
  Re.match_at env_value_regex_filter true s <> None <->
  environment_then_space_or_last_line_end s.
Proof.
  rewrite match_at_iff. unfold environment_then_space_or_last_line_end. split.
  - intros (s1 & s2 & s3 & H1 & H2 & H3).
    simpl in H1. destruct H1 as [<-|[]].
    apply in_run_environments in H2 as (w & Hw & ->).
    exists w, s2. repeat split; auto.
    change (Re.after env_value_regex_filter)
      with (Re.Alt (Re.Look (Re.Chr " ")) Re.Eol) in H3.
    apply in_run_Alt in H3 as [H3|H3].
    + apply in_run_Look in H3 as (_ & u & Hu). apply in_run_Chr in Hu. eauto.
    + apply in_run_Eol in H3 as (_ & [->| ->]); auto.
  - intros (w & rest & Hw & -> & Hrest).
    exists (w +++ rest), rest, rest. repeat split.
    + simpl. auto.
    + apply in_run_environments. eauto.
    + change (Re.after env_value_regex_filter)
        with (Re.Alt (Re.Look (Re.Chr " ")) Re.Eol).
      apply in_run_Alt. destruct Hrest as [->|[->|(rest' & ->)]].
      * right. apply in_run_Eol. auto.
      * right. apply in_run_Eol. auto.
      * left. apply in_run_Look. split; [reflexivity|].
        exists rest'. apply in_run_Chr. reflexivity.
Qed.

Lemma found_env (v : string) :
  found env_value_regex_filter v = true <->
  environment_then_space_or_last_line_end v.
Proof.
  rewrite found_true, found_iff, match_at_env. split.
  - intros [H|(c & pre & suf & _ & H)]; [assumption|].
    now rewrite match_at_env_not_start in H.
  - auto.
Qed.

(* ------------------------------------------------------------------ *)
(** * Name extraction *)

Lemma findall_nameregex_empty_iff (arn : string) :
  Re.findall nameregex arn = [] <-> ~ occurs "/" arn.
Proof.
  unfold Re.findall. split.
  - intros E H. apply occurs_split in H as (pre & rest & -> & Hpre).
    destruct (findall_nameregex_first
                (S (String.length (pre +++ String "/" rest))) true pre rest Hpre)
      as [more E'].
    + rewrite length_append. lia.
    + congruence.
  - apply findall_nameregex_none.
Qed.

Lemma findall_nameregex_head (pre rest : string) :
  ~ occurs "/" pre ->
  exists more, Re.findall nameregex (pre +++ String "/" rest) = line rest :: more.
Proof.
  intros H. apply findall_nameregex_first; [assumption|].
  rewrite length_append. lia.
Qed.

Lemma after_last_single (c : ascii) (pre rest : string) :
  ~ occurs c rest -> after_last c (pre +++ String c rest) = rest.
Proof.
  intros H. apply contains_char_false in H.
  induction pre as [|d pre IH]; simpl.
  - rewrite H, Ascii.eqb_refl. reflexivity.
  - replace (PyStr.contains (String c "") (pre +++ String c rest)) with true;
      [assumption|].
    symmetry. apply contains_char, occurs_append. right. simpl. auto.
Qed.

(** C3, as the code has it: the name taken for a task definition or a
    cluster is what follows the FIRST separator of the identifier, up to
    the first line feed after it.  Without a line feed it is all that
    follows the first separator, and it is what follows the last
    separator when there is no second one. *)
Theorem name_is_after_first_separator (pre rest : string) (st : State) :
  ~ occurs "/" pre ->
  index0 (Re.findall nameregex (pre +++ String "/" rest)) st
    = (Ret (line rest), st) /\
  (~ occurs Re.newline rest -> line rest = rest) /\
  (~ occurs "/" rest -> after_last "/" (pre +++ String "/" rest) = rest).
Proof.
  intros H. split; [|split].
  - destruct (findall_nameregex_head pre rest H) as [more ->]. reflexivity.
  - apply line_no_newline.
  - apply after_last_single.
Qed.

Lemma name_is_after_first_separator_witness :
  ~ occurs "/" "arn:aws:ecs:us-east-1:533271940600:cluster" /\
  index0 (Re.findall nameregex
            "arn:aws:ecs:us-east-1:533271940600:cluster/FargateCluster1")
         initial
    = (Ret (line "FargateCluster1"), initial).
Proof.
  assert (H : ~ occurs "/" "arn:aws:ecs:us-east-1:533271940600:cluster").
  { simpl. intros H. decompose [or] H; try discriminate; assumption. }
  split; [exact H|].
  exact (proj1 (name_is_after_first_separator
                  "arn:aws:ecs:us-east-1:533271940600:cluster"
                  "FargateCluster1" initial H)).
Defined.

(** C3, as the spec states it, fails on an identifier with two
    separators: the name is what follows the first one. *)
Lemma name_is_not_after_last_separator :
  PyStr.contains "/" "cluster/a/b" = true /\
  after_last "/" "cluster/a/b" = "b" /\
  index0 (Re.findall nameregex "cluster/a/b") initial = (Ret "a/b", initial) /\
  index0 (Re.findall nameregex "cluster/a/b") initial
    <> (Ret (after_last "/" "cluster/a/b"), initial).
Proof. repeat split; try reflexivity. discriminate. Qed.

(* ------------------------------------------------------------------ *)
(** * The tag classifier *)

Lemma nth_error_tag_regex_filtering (l : list Tag) (i : nat) (tag : Tag) :
  nth_error l i = Some tag ->
  nth_error (tag_regex_filtering l) i = Some (check_tag tag).
Proof.
  intros H. rewrite tag_regex_filtering_map.
  now apply map_nth_error.
Qed.

Lemma check_tag_uai (tag : Tag) :
  PyStr.contains "uai" (PyStr.lower (key tag)) = true ->
  check_tag tag =
    Pair (key tag) (if found uai_value_regex_filter (value tag)
                    then "COMPLIANT" else "NON_COMPLIANT").
Proof.
  intros H. unfold check_tag. rewrite H.
  now destruct (found uai_value_regex_filter (value tag)).
Qed.

Lemma check_tag_env (tag : Tag) :
  PyStr.contains "uai" (PyStr.lower (key tag)) = false ->
  PyStr.contains "env" (PyStr.lower (key tag)) = true ->
  check_tag tag =
    Pair (key tag) (if found env_value_regex_filter (value tag)
                    then "COMPLIANT" else "NON_COMPLIANT").
Proof.
  intros H1 H2. unfold check_tag. rewrite H1, H2.
  now destruct (found env_value_regex_filter (value tag)).
Qed.

(** C6: a tag whose key has uai in it, in any case, is marked COMPLIANT
    exactly when its value has, somewhere, uai followed by seven digits,
    and NON_COMPLIANT otherwise; uai1234567 is COMPLIANT and uai123 is
    NON_COMPLIANT. *)
Theorem uai_tag_compliant_iff_seven_digits :
  (forall (tags : list Tag) (i : nat) (tag : Tag),
     nth_error tags i = Some tag ->
     PyStr.contains "uai" (PyStr.lower (key tag)) = true ->
     (nth_error (tag_regex_filtering tags) i
        = Some (Pair (key tag) "COMPLIANT")
      <-> uai_then_seven_digits (value tag)) /\
     (nth_error (tag_regex_filtering tags) i
        = Some (Pair (key tag) "NON_COMPLIANT")
      <-> ~ uai_then_seven_digits (value tag))) /\
  tag_regex_filtering [mkTag "uai-tag" "uai1234567"]
    = [Pair "uai-tag" "COMPLIANT"] /\
  tag_regex_filtering [mkTag "uai-tag" "uai123"]
    = [Pair "uai-tag" "NON_COMPLIANT"].
Proof.
  split; [|split; reflexivity].
  intros tags i tag Hi Hkey.
  rewrite (nth_error_tag_regex_filtering _ _ _ Hi), (check_tag_uai _ Hkey).
  rewrite <- found_uai.
  destruct (found uai_value_regex_filter (value tag)); split; split;
    congruence.
Qed.

Lemma uai_tag_compliant_iff_seven_digits_witness :
  nth_error [mkTag "env" "prd"; mkTag "My-UAI" "xuai12345678"] 1
    = Some (mkTag "My-UAI" "xuai12345678") /\
  PyStr.contains "uai" (PyStr.lower "My-UAI") = true /\
  (nth_error (tag_regex_filtering
                [mkTag "env" "prd"; mkTag "My-UAI" "xuai12345678"]) 1
     = Some (Pair "My-UAI" "COMPLIANT")
   <-> uai_then_seven_digits "xuai12345678").
Proof.
  split; [reflexivity|]. split; [reflexivity|].
  exact (proj1 (proj1 uai_tag_compliant_iff_seven_digits
                  [mkTag "env" "prd"; mkTag "My-UAI" "xuai12345678"] 1
                  (mkTag "My-UAI" "xuai12345678") eq_refl eq_refl)).
Defined.

Lemma environment_weaker (v : string) :
  environment_then_space_or_end v ->
  environment_then_space_or_last_line_end v.
Proof.
  intros (w & rest & Hw & -> & H). exists w, rest. tauto.
Qed.

(** C7, as the code has it: a tag whose key has env but not uai in it,
    in any case, is marked COMPLIANT exactly when its value is, from its
    start, one of prd, stg, qa, tst, dev, lab followed by a space, by the
    end of the string or by a line feed that ends the string, and
    NON_COMPLIANT otherwise; prd is COMPLIANT and production is
    NON_COMPLIANT. *)
Theorem env_tag_compliant_iff_environment :
  (forall (tags : list Tag) (i : nat) (tag : Tag),
     nth_error tags i = Some tag ->
     PyStr.contains "uai" (PyStr.lower (key tag)) = false ->
     PyStr.contains "env" (PyStr.lower (key tag)) = true ->
     (nth_error (tag_regex_filtering tags) i
        = Some (Pair (key tag) "COMPLIANT")
      <-> environment_then_space_or_last_line_end (value tag)) /\
     (nth_error (tag_regex_filtering tags) i
        = Some (Pair (key tag) "NON_COMPLIANT")
      <-> ~ environment_then_space_or_last_line_end (value tag))) /\
  tag_regex_filtering [mkTag "Environment" "prd"]
    = [Pair "Environment" "COMPLIANT"] /\
  tag_regex_filtering [mkTag "Environment" "production"]
    = [Pair "Environment" "NON_COMPLIANT"].
Proof.
  split; [|split; reflexivity].
  intros tags i tag Hi Hu He.
  rewrite (nth_error_tag_regex_filtering _ _ _ Hi), (check_tag_env _ Hu He).
  rewrite <- found_env.
  destruct (found env_value_regex_filter (value tag)); split; split;
    congruence.
Qed.

Lemma env_tag_compliant_iff_environment_witness :
  nth_error [mkTag "Environment" "qa two"] 0 = Some (mkTag "Environment" "qa two") /\
  PyStr.contains "uai" (PyStr.lower "Environment") = false /\
  PyStr.contains "env" (PyStr.lower "Environment") = true /\
  (nth_error (tag_regex_filtering [mkTag "Environment" "qa two"]) 0
     = Some (Pair "Environment" "COMPLIANT")
   <-> environment_then_space_or_last_line_end "qa two").
Proof.
  repeat (split; [reflexivity|]).
  exact (proj1 (proj1 env_tag_compliant_iff_environment
                  [mkTag "Environment" "qa two"] 0
                  (mkTag "Environment" "qa two") eq_refl eq_refl eq_refl)).
Defined.

(** C7, as the spec states it, fails on the value prd followed by a line
    feed: the tag is marked COMPLIANT, yet prd is followed neither by a
    space nor by the end of the string. *)
Lemma env_value_with_final_line_feed :
  PyStr.contains "uai" (PyStr.lower "Environment") = false /\
  PyStr.contains "env" (PyStr.lower "Environment") = true /\
  tag_regex_filtering [mkTag "Environment" ("prd" +++ String Re.newline "")]
    = [Pair "Environment" "COMPLIANT"] /\
  ~ environment_then_space_or_end ("prd" +++ String Re.newline "").
Proof.
  repeat (split; [reflexivity|]).
  intros (w & rest & Hw & E & Hrest).
  simpl in Hw.
  decompose [or] Hw; subst; try discriminate; try contradiction.
  injection E as <-.
  destruct Hrest as [H|(rest' & H)]; discriminate.
Qed.

(* ------------------------------------------------------------------ *)
(** * Running the program *)

Lemma bind_run {A B} (m : M A) (k : A -> M B) (st : State) (a : A) (st1 : State) :
  m st = (Ret a, st1) -> bind m k st = k a st1.
Proof. unfold bind. now intros ->. Qed.

Lemma bind_raise {A B} (m : M A) (k : A -> M B) (st : State) (e : exn) (st1 : State) :
  m st = (Raise e, st1) -> bind m k st = (Raise e, st1).
Proof. unfold bind. now intros ->. Qed.

Lemma bind_inv {A B} (m : M A) (k : A -> M B) (st : State) (b : B) (st' : State) :
  bind m k st = (Ret b, st') ->
  exists a st1, m st = (Ret a, st1) /\ k a st1 = (Ret b, st').
Proof.
  unfold bind. destruct (m st) as [[a|e|] st1]; intros H; try discriminate.
  eauto.
Qed.

Lemma keeps_ret {A} (a : A) : keeps (ret a).
Proof. now intros st. Qed.

Lemma keeps_raise {A} (e : exn) : keeps (@raise A e).
Proof. now intros st. Qed.

Lemma keeps_bind {A B} (m : M A) (k : A -> M B) :
  keeps m -> (forall a, keeps (k a)) -> keeps (bind m k).
Proof.
  intros Hm Hk st. unfold bind. specialize (Hm st).
  destruct (m st) as [[a|e|] st1]; simpl in *; try assumption.
  now rewrite Hk.
Qed.

Lemma keeps_getattr (client : Client) (name : string) :
  keeps (getattr client name).
Proof. intros st. unfold getattr. now destruct (client name). Qed.

Lemma keeps_call (f : callable) (kw : kwargs) : keeps (call f kw).
Proof. intros st. unfold call. now destruct (body f kw). Qed.

Lemma keeps_subscript {A} (entry : option A) : keeps (subscript entry).
Proof. intros st. now destruct entry. Qed.

Lemma keeps_index0 {A} (l : list A) : keeps (index0 l).
Proof. intros st. now destruct l. Qed.

Lemma keeps_fetch_loop {A} (fuel : nat) (client : Client)
    (response_key : Response -> option (list A)) items next_token :
  keeps (fetch_loop fuel client response_key items next_token).
Proof.
  revert items next_token; induction fuel as [|fuel IH]; intros items next_token;
    simpl; destruct (truthy next_token); try apply keeps_ret.
  - now intros st.
  - apply keeps_bind; [apply keeps_getattr|]; intros f.
    apply keeps_bind; [apply keeps_call|]; intros r.
    apply keeps_bind; [apply keeps_subscript|]; intros more.
    apply IH.
Qed.

Lemma keeps_fetch_all_items {A} (fuel : nat) (client : Client)
    (method : callable) (response_key : Response -> option (list A)) (kw : kwargs) :
  keeps (fetch_all_items fuel client method response_key kw).
Proof.
  unfold fetch_all_items.
  apply keeps_bind; [destruct kw; apply keeps_call|]; intros r.
  apply keeps_bind; [apply keeps_subscript|]; intros items.
  apply keeps_fetch_loop.
Qed.

Lemma keeps_run {A} (m : M A) (st : State) (o : outcome A) (st1 : State) :
  keeps m -> m st = (o, st1) -> evaluations st1 = evaluations st.
Proof. intros H E. specialize (H st). now rewrite E in H. Qed.

Lemma annotated_slice (id type text : string) (c : ComplianceType) :
  annotated (mkEvaluation c id type (PyStr.slice_to 255 text)) text.
Proof.
  unfold annotated; cbn [annotation]. rewrite length_slice_to.
  repeat split; try lia. apply slice_to_all.
Qed.

(** The four templates with their arguments filled in. *)
Lemma annotate_no_tags (name : string) (st : State) :
  annotate no_tags_str [name] st
    = (Ret (PyStr.slice_to 255 (no_tags_text name)), st).
Proof. reflexivity. Qed.

Lemma annotate_compliant (name : string) (st : State) :
  annotate compliant_str [name] st
    = (Ret (PyStr.slice_to 255 (compliant_text name)), st).
Proof. reflexivity. Qed.

Lemma annotate_non_compliant (name results : string) (st : State) :
  annotate non_compliant_str [name; results] st
    = (Ret (PyStr.slice_to 255 (non_compliant_text name results)), st).
Proof. reflexivity. Qed.

Lemma annotate_old_arn (name : string) (st : State) :
  annotate old_arn_str [name] st
    = (Ret (PyStr.slice_to 255 (old_arn_text name)), st).
Proof. reflexivity. Qed.

(* ------------------------------------------------------------------ *)
(** * The evaluators, given the fetched tags *)

Lemma taskDefinition_eval_run (fuel : nat) (client : Client)
    (arn name : string) (more : list string) (minimum : nat)
    (l : list Tag) (st st1 : State) :
  Re.findall nameregex arn = name :: more ->
  fetches_tags fuel client arn st l st1 ->
  taskDefinition_eval fuel client arn minimum st
  = (Ret tt, push (tags_evaluation NON_COMPLIANT arn "AWS::ECS::TaskDefinition"
                                   name minimum l) st1).
Proof.
  intros Hname (m & Hm & Hfetch). unfold taskDefinition_eval.
  rewrite Hname. unfold getattr. rewrite Hm.
  erewrite bind_run by reflexivity.
  erewrite bind_run by reflexivity.
  erewrite bind_run by exact Hfetch.
  destruct l as [|t l]; [reflexivity|].
  unfold tags_evaluation.
  cbn [List.length Nat.eqb].
  destruct (compliance_count (tag_regex_filtering (t :: l)) =? minimum)%nat;
    reflexivity.
Qed.

Lemma service_eval_run (fuel : nat) (client : Client)
    (arn name : string) (minimum : nat) (l : list Tag) (st st1 : State) :
  (1 <? separators arn)%nat = true ->
  fetches_tags fuel client arn st l st1 ->
  service_eval fuel client arn minimum name st
  = (Ret tt, push (tags_evaluation NON_COMPLIANT arn "AWS::ECS::Service"
                                   name minimum l) st1).
Proof.
  intros Hsep (m & Hm & Hfetch). unfold service_eval.
  rewrite Hsep. unfold getattr. rewrite Hm.
  erewrite bind_run by reflexivity.
  erewrite bind_run by exact Hfetch.
  destruct l as [|t l]; [reflexivity|].
  unfold tags_evaluation.
  cbn [List.length Nat.eqb].
  destruct (compliance_count (tag_regex_filtering (t :: l)) =? minimum)%nat;
    reflexivity.
Qed.

Lemma service_eval_old_arn (fuel : nat) (client : Client)
    (arn name : string) (minimum : nat) (st : State) :
  (1 <? separators arn)%nat = false ->
  service_eval fuel client arn minimum name st
  = (Ret tt, push (mkEvaluation NON_COMPLIANT arn "AWS::ECS::Service"
                                (PyStr.slice_to 255 (old_arn_text name))) st).
Proof. intros Hsep. unfold service_eval. rewrite Hsep. reflexivity. Qed.

Lemma cluster_eval_run (fuel : nat) (client : Client)
    (arn name : string) (minimum : nat) (l : list Tag) (st st1 : State) :
  fetches_tags fuel client arn st l st1 ->
  cluster_eval fuel client arn minimum name st
  = (Ret tt, push (tags_evaluation COMPLIANT arn "AWS::ECS::Cluster"
                                   name minimum l) st1).
Proof.
  intros (m & Hm & Hfetch). unfold cluster_eval.
  unfold getattr. rewrite Hm.
  erewrite bind_run by reflexivity.
  erewrite bind_run by exact Hfetch.
  destruct l as [|t l]; [reflexivity|].
  unfold tags_evaluation.
  cbn [List.length Nat.eqb].
  destruct (compliance_count (tag_regex_filtering (t :: l)) =? minimum)%nat;
    reflexivity.
Qed.

(* ------------------------------------------------------------------ *)
(** * The separator count of [service_eval] *)

Lemma separators_count_char (arn : string) :
  separators arn = count_char "/" arn.
Proof.
  induction arn as [|c t IH]; [reflexivity|].
  change (separators (String c t))
    with ((if PyStr.contains "/" (String c "") then 1 else 0) + separators t).
  rewrite IH. cbn [count_char]. f_equal.
  cbn [PyStr.contains PyStr.startswith].
  now destruct (Ascii.eqb "/" c).
Qed.

Lemma separators_few (arn : string) :
  count_char "/" arn < 2 <-> (1 <? separators arn)%nat = false.
Proof. rewrite separators_count_char, Nat.ltb_ge. lia. Qed.

Lemma separators_many (arn : string) :
  2 <= count_char "/" arn <-> (1 <? separators arn)%nat = true.
Proof. rewrite separators_count_char, Nat.ltb_lt. lia. Qed.

(* ------------------------------------------------------------------ *)
(** * Resources without tags *)

Lemma length_no_tags_text (name : string) :
  String.length (no_tags_text name) = 33 + String.length name.
Proof.
  unfold no_tags_text. repeat rewrite length_append. simpl. lia.
Qed.

Lemma length_old_arn_text (name : string) :
  String.length (old_arn_text name) = 41 + String.length name.
Proof.
  unfold old_arn_text. repeat rewrite length_append. simpl. lia.
Qed.

(** C5: when the fetched tag list is empty, each of the three evaluators
    appends a NON_COMPLIANT evaluation whose annotation is the text
    NO Tags at all on ECS Resource (name), cut to 255 characters as every
    annotation is; the text is not cut when the name has at most 222
    characters.  Nothing else is consulted on this branch. *)
Theorem no_tags_is_non_compliant (fuel : nat) (client : Client)
    (arn name : string) (minimum : nat) (st st1 : State) :
  fetches_tags fuel client arn st [] st1 ->
  (forall more, Re.findall nameregex arn = name :: more ->
     taskDefinition_eval fuel client arn minimum st
     = (Ret tt,
        push (mkEvaluation NON_COMPLIANT arn "AWS::ECS::TaskDefinition"
                (PyStr.slice_to 255 (no_tags_text name))) st1)) /\
  (2 <= count_char "/" arn ->
     service_eval fuel client arn minimum name st
     = (Ret tt,
        push (mkEvaluation NON_COMPLIANT arn "AWS::ECS::Service"
                (PyStr.slice_to 255 (no_tags_text name))) st1)) /\
  cluster_eval fuel client arn minimum name st
  = (Ret tt,
     push (mkEvaluation NON_COMPLIANT arn "AWS::ECS::Cluster"
             (PyStr.slice_to 255 (no_tags_text name))) st1) /\
  (String.length name <= 222 ->
     PyStr.slice_to 255 (no_tags_text name) = no_tags_text name).
Proof.
  intros Hfetch. repeat split.
  - intros more Hname.
    now rewrite (taskDefinition_eval_run _ _ _ _ _ _ _ _ _ Hname Hfetch).
  - intros Hsep. apply separators_many in Hsep.
    now rewrite (service_eval_run _ _ _ _ _ _ _ _ Hsep Hfetch).
  - now rewrite (cluster_eval_run _ _ _ _ _ _ _ _ Hfetch).
  - intros Hlen. apply slice_to_all. rewrite length_no_tags_text. lia.
Qed.

Lemma no_tags_is_non_compliant_witness :
  fetches_tags 0 (tags_client [])
    "arn:aws:ecs:us-east-1:533271940600:cluster/FargateCluster1" initial []
    (mkState [] [("list_tags_for_resource",
                  [("resourceArn",
                    AStr "arn:aws:ecs:us-east-1:533271940600:cluster/FargateCluster1")])]) /\
  cluster_eval 0 (tags_client [])
    "arn:aws:ecs:us-east-1:533271940600:cluster/FargateCluster1" 3
    "FargateCluster1" initial
  = (Ret tt,
     mkState
       [mkEvaluation NON_COMPLIANT
          "arn:aws:ecs:us-east-1:533271940600:cluster/FargateCluster1"
          "AWS::ECS::Cluster"
          "NO Tags at all on ECS Resource (FargateCluster1)"]
       [("list_tags_for_resource",
         [("resourceArn",
           AStr "arn:aws:ecs:us-east-1:533271940600:cluster/FargateCluster1")])]).
Proof.
  assert (H : fetches_tags 0 (tags_client [])
    "arn:aws:ecs:us-east-1:533271940600:cluster/FargateCluster1" initial []
    (mkState [] [("list_tags_for_resource",
                  [("resourceArn",
                    AStr "arn:aws:ecs:us-east-1:533271940600:cluster/FargateCluster1")])])).
  { eexists. split; reflexivity. }
  split; [exact H|].
  exact (proj1 (proj2 (proj2
           (no_tags_is_non_compliant 0 (tags_client []) _ "FargateCluster1" 3
                                     initial _ H)))).
Defined.

(* ------------------------------------------------------------------ *)
(** * Services with a legacy identifier *)

Lemma service_eval_calls (fuel : nat) (client : Client)
    (arn name : string) (minimum : nat) (st : State) :
  (1 <? separators arn)%nat = false ->
  calls (snd (service_eval fuel client arn minimum name st)) = calls st.
Proof. intros H. now rewrite service_eval_old_arn. Qed.

(** C4: for a service identifier with fewer than two separators,
    [service_eval] appends a NON_COMPLIANT evaluation annotated
    (name) uses old ARN and does not support TAGS (cut to 255 characters
    as every annotation is, so not cut for a name of at most 214
    characters) and makes no client call at all; whenever [service_eval]
    does make a call, the identifier has two separators or more. *)
Theorem legacy_service_arn_skips_tag_fetch (fuel : nat) (client : Client)
    (arn name : string) (minimum : nat) (st : State) :
  (count_char "/" arn < 2 ->
     service_eval fuel client arn minimum name st
     = (Ret tt,
        mkState (evaluations st ++
                 [mkEvaluation NON_COMPLIANT arn "AWS::ECS::Service"
                    (PyStr.slice_to 255 (old_arn_text name))])
                (calls st)) /\
     (String.length name <= 214 ->
        PyStr.slice_to 255 (old_arn_text name) = old_arn_text name)) /\
  (calls (snd (service_eval fuel client arn minimum name st)) <> calls st ->
     2 <= count_char "/" arn).
Proof.
  split.
  - intros Hsep. apply separators_few in Hsep. split.
    + now rewrite service_eval_old_arn.
    + intros Hlen. apply slice_to_all. rewrite length_old_arn_text. lia.
  - intros Hcalls.
    destruct (le_lt_dec 2 (count_char "/" arn)) as [H|H]; [assumption|].
    apply separators_few in H. now rewrite service_eval_calls in Hcalls.
Qed.

Lemma legacy_service_arn_skips_tag_fetch_witness :
  count_char "/" "arn:aws:ecs:us-east-1:123456789123:service/api" < 2 /\
  service_eval 0 (tags_client three_good_tags)
    "arn:aws:ecs:us-east-1:123456789123:service/api" 3 "api" initial
  = (Ret tt,
     mkState
       [mkEvaluation NON_COMPLIANT
          "arn:aws:ecs:us-east-1:123456789123:service/api"
          "AWS::ECS::Service"
          "(api) uses old ARN and does not support TAGS"]
       []).
Proof.
  assert (H : count_char "/" "arn:aws:ecs:us-east-1:123456789123:service/api" < 2).
  { vm_compute. lia. }
  split; [exact H|].
  exact (proj1 (proj1 (legacy_service_arn_skips_tag_fetch
                         0 (tags_client three_good_tags)
                         "arn:aws:ecs:us-east-1:123456789123:service/api"
                         "api" 3 initial) H)).
Defined.

(* ------------------------------------------------------------------ *)
(** * What an evaluator that returns has done *)

Lemma taskDefinition_eval_inv (fuel : nat) (client : Client)
    (arn : string) (minimum : nat) (st st' : State) :
  taskDefinition_eval fuel client arn minimum st = (Ret tt, st') ->
  exists name more l st1,
    Re.findall nameregex arn = name :: more /\
    fetches_tags fuel client arn st l st1 /\
    st' = push (tags_evaluation NON_COMPLIANT arn "AWS::ECS::TaskDefinition"
                                name minimum l) st1.
Proof.
  intros H. pose proof H as H'. unfold taskDefinition_eval in H'.
  apply bind_inv in H' as (name & s0 & H0 & H').
  destruct (Re.findall nameregex arn) as [|n more] eqn:Hname; [discriminate|].
  injection H0 as <- <-.
  apply bind_inv in H' as (m & s1 & H1 & H').
  unfold getattr in H1.
  destruct (client "list_tags_for_resource") as [f|] eqn:Hm; [|discriminate].
  injection H1 as <- <-.
  apply bind_inv in H' as (l & st1 & Hfetch & _).
  assert (Hf : fetches_tags fuel client arn st l st1) by (exists f; auto).
  exists n, more, l, st1. repeat split; try assumption.
  rewrite (taskDefinition_eval_run _ _ _ _ _ _ _ _ _ Hname Hf) in H. congruence.
Qed.

Lemma service_eval_inv (fuel : nat) (client : Client)
    (arn name : string) (minimum : nat) (st st' : State) :
  service_eval fuel client arn minimum name st = (Ret tt, st') ->
  (count_char "/" arn < 2 /\
   st' = push (mkEvaluation NON_COMPLIANT arn "AWS::ECS::Service"
                 (PyStr.slice_to 255 (old_arn_text name))) st) \/
  (2 <= count_char "/" arn /\
   exists l st1,
     fetches_tags fuel client arn st l st1 /\
     st' = push (tags_evaluation NON_COMPLIANT arn "AWS::ECS::Service"
                                 name minimum l) st1).
Proof.
  intros H. destruct (1 <? separators arn)%nat eqn:Hsep.
  - right. split; [now apply separators_many|].
    pose proof H as H'. unfold service_eval in H'. rewrite Hsep in H'.
    apply bind_inv in H' as (m & s1 & H1 & H').
    unfold getattr in H1.
    destruct (client "list_tags_for_resource") as [f|] eqn:Hm; [|discriminate].
    injection H1 as <- <-.
    apply bind_inv in H' as (l & st1 & Hfetch & _).
    assert (Hf : fetches_tags fuel client arn st l st1) by (exists f; auto).
    exists l, st1. split; [assumption|].
    rewrite (service_eval_run _ _ _ _ _ _ _ _ Hsep Hf) in H. congruence.
  - left. split; [now apply separators_few|].
    rewrite (service_eval_old_arn _ _ _ _ _ _ Hsep) in H. congruence.
Qed.

Lemma cluster_eval_inv (fuel : nat) (client : Client)
    (arn name : string) (minimum : nat) (st st' : State) :
  cluster_eval fuel client arn minimum name st = (Ret tt, st') ->
  exists l st1,
    fetches_tags fuel client arn st l st1 /\
    st' = push (tags_evaluation COMPLIANT arn "AWS::ECS::Cluster"
                                name minimum l) st1.
Proof.
  intros H. pose proof H as H'. unfold cluster_eval in H'.
  apply bind_inv in H' as (m & s1 & H1 & H').
  unfold getattr in H1.
  destruct (client "list_tags_for_resource") as [f|] eqn:Hm; [|discriminate].
  injection H1 as <- <-.
  apply bind_inv in H' as (l & st1 & Hfetch & _).
  assert (Hf : fetches_tags fuel client arn st l st1) by (exists f; auto).
  exists l, st1. split; [assumption|].
  rewrite (cluster_eval_run _ _ _ _ _ _ _ _ Hf) in H. congruence.
Qed.

Lemma fetches_tags_keeps (fuel : nat) (client : Client) (arn : string)
    (st : State) (l : list Tag) (st1 : State) :
  fetches_tags fuel client arn st l st1 -> evaluations st1 = evaluations st.
Proof.
  intros (m & _ & H). eapply keeps_run; [|exact H].
  apply keeps_fetch_all_items.
Qed.

(* ------------------------------------------------------------------ *)
(** * The verdict when the count is met *)

Lemma tags_evaluation_non_compliant (id type name : string) (minimum : nat)
    (l : list Tag) :
  complianceType (tags_evaluation NON_COMPLIANT id type name minimum l)
  = NON_COMPLIANT.
Proof.
  unfold tags_evaluation. destruct l; [reflexivity|].
  now destruct (_ =? _)%nat.
Qed.

(** Whatever the tags, the evaluation of a task definition is
    NON_COMPLIANT. *)
Lemma taskDefinition_eval_never_compliant (fuel : nat) (client : Client)
    (arn : string) (minimum : nat) (st st' : State) :
  taskDefinition_eval fuel client arn minimum st = (Ret tt, st') ->
  exists e, evaluations st' = evaluations st ++ [e] /\
            complianceType e = NON_COMPLIANT.
Proof.
  intros H. apply taskDefinition_eval_inv in H
    as (name & more & l & st1 & _ & Hf & ->).
  eexists. split.
  - simpl. now rewrite (fetches_tags_keeps _ _ _ _ _ _ Hf).
  - apply tags_evaluation_non_compliant.
Qed.

(** Whatever the tags, the evaluation of a service is NON_COMPLIANT. *)
Lemma service_eval_never_compliant (fuel : nat) (client : Client)
    (arn name : string) (minimum : nat) (st st' : State) :
  service_eval fuel client arn minimum name st = (Ret tt, st') ->
  exists e, evaluations st' = evaluations st ++ [e] /\
            complianceType e = NON_COMPLIANT.
Proof.
  intros H. apply service_eval_inv in H
    as [(_ & ->)|(_ & l & st1 & Hf & ->)]; eexists; split.
  - reflexivity.
  - reflexivity.
  - simpl. now rewrite (fetches_tags_keeps _ _ _ _ _ _ Hf).
  - apply tags_evaluation_non_compliant.
Qed.

(** The evaluation of a cluster with tags is COMPLIANT exactly when the
    count is met. *)
Lemma cluster_eval_compliant_iff (fuel : nat) (client : Client)
    (arn name : string) (minimum : nat) (t : Tag) (l : list Tag)
    (st st1 : State) :
  fetches_tags fuel client arn st (t :: l) st1 ->
  (compliance_count (tag_regex_filtering (t :: l)) = minimum ->
     cluster_eval fuel client arn minimum name st
     = (Ret tt, push (mkEvaluation COMPLIANT arn "AWS::ECS::Cluster"
                        (PyStr.slice_to 255 (compliant_text name))) st1)) /\
  (compliance_count (tag_regex_filtering (t :: l)) <> minimum ->
     cluster_eval fuel client arn minimum name st
     = (Ret tt, push (mkEvaluation NON_COMPLIANT arn "AWS::ECS::Cluster"
                        (PyStr.slice_to 255
                           (non_compliant_text name
                              (str_checked (tag_regex_filtering (t :: l))))))
                     st1)).
Proof.
  intros Hf. rewrite (cluster_eval_run _ _ _ _ _ _ _ _ Hf).
  unfold tags_evaluation.
  destruct (Nat.eqb_spec (compliance_count (tag_regex_filtering (t :: l))) minimum);
    split; intros; congruence.
Qed.

(** C1, at a task definition and a service with one good tag of each
    kind: the classifier marks three entries COMPLIANT, the count equals
    the required 3 and the annotation reads Tags are COMPLIANT, yet the
    compliance type written by [taskDefinition_eval] and [service_eval]
    is NON_COMPLIANT; [cluster_eval] writes COMPLIANT for the same tags. *)
Theorem count_met_but_non_compliant :
  tag_regex_filtering three_good_tags
    = [Pair "uai" "COMPLIANT"; Pair "env" "COMPLIANT"; Pair "Name" "COMPLIANT"] /\
  compliance_count (tag_regex_filtering three_good_tags) = 3 /\
  evaluations (snd (taskDefinition_eval 0 (tags_client three_good_tags)
                                        task1 3 initial))
    = [mkEvaluation NON_COMPLIANT task1 "AWS::ECS::TaskDefinition"
                    "Tags are COMPLIANT on ECS Resource (users:1)"] /\
  evaluations (snd (service_eval 0 (tags_client three_good_tags)
                                 (serviceArn service1) 3 "web" initial))
    = [mkEvaluation NON_COMPLIANT (serviceArn service1) "AWS::ECS::Service"
                    "Tags are COMPLIANT on ECS Resource (web)"] /\
  evaluations (snd (cluster_eval 0 (tags_client three_good_tags)
                                 cluster1 3 "c1" initial))
    = [mkEvaluation COMPLIANT cluster1 "AWS::ECS::Cluster"
                    "Tags are COMPLIANT on ECS Resource (c1)"].
Proof. repeat split. Qed.

(* ------------------------------------------------------------------ *)
(** * Pagination *)

(** A response without a continuation token: its items are the result. *)
Lemma fetch_all_items_one_page {A} (fuel : nat) (client : Client)
    (method : callable) (response_key : Response -> option (list A))
    (kw : kwargs) (r : Response) (items : list A) (st : State) :
  body method kw = Reply r ->
  response_key r = Some items ->
  truthy (NextToken r) = None ->
  fetch_all_items fuel client method response_key kw st
  = (Ret items, mkState (evaluations st) (calls st ++ [(method_name method, kw)])).
Proof.
  intros Hr Hitems Htoken. unfold fetch_all_items.
  assert (Hcall : call method kw st
                  = (Ret r, mkState (evaluations st)
                                    (calls st ++ [(method_name method, kw)]))).
  { unfold call. now rewrite Hr. }
  erewrite bind_run by (destruct kw; exact Hcall).
  rewrite Hitems. erewrite bind_run by reflexivity.
  destruct fuel; simpl; now rewrite Htoken.
Qed.

(** C2, where the code departs from it: when the first response carries
    a continuation token, the next call goes to [client.method]; a client
    without an attribute of that name (every boto3 client) makes
    [fetch_all_items] raise AttributeError after the first call, so no
    second page is fetched and no list is returned. *)
Theorem fetch_all_items_second_page_fails {A} (fuel : nat) (client : Client)
    (method : callable) (response_key : Response -> option (list A))
    (kw : kwargs) (r : Response) (items : list A) (token : string) (st : State) :
  client "method" = None ->
  body method kw = Reply r ->
  response_key r = Some items ->
  truthy (NextToken r) = Some token ->
  fetch_all_items (S fuel) client method response_key kw st
  = (Raise (AttributeError "method"),
     mkState (evaluations st) (calls st ++ [(method_name method, kw)])).
Proof.
  intros Hattr Hr Hitems Htoken. unfold fetch_all_items.
  assert (Hcall : call method kw st
                  = (Ret r, mkState (evaluations st)
                                    (calls st ++ [(method_name method, kw)]))).
  { unfold call. now rewrite Hr. }
  erewrite bind_run by (destruct kw; exact Hcall).
  rewrite Hitems. erewrite bind_run by reflexivity.
  simpl. rewrite Htoken. unfold getattr. rewrite Hattr. reflexivity.
Qed.

Lemma fetch_all_items_second_page_fails_witness :
  two_page_client "method" = None /\
  (exists f,
     two_page_client "list_clusters" = Some f /\
     f [("maxResults", AInt 100)]
       = Reply (mkResponse (Some ["cluster/a"]) None None None None (Some "t1")) /\
     f [("NextToken", AStr "t1")]
       = Reply (mkResponse (Some ["cluster/b"]) None None None None None) /\
     fetch_all_items 1 two_page_client (mkCallable "list_clusters" f)
                     clusterArns [("maxResults", AInt 100)] initial
     = (Raise (AttributeError "method"),
        mkState [] [("list_clusters", [("maxResults", AInt 100)])])).
Proof.
  split; [reflexivity|].
  eexists. split; [reflexivity|]. split; [reflexivity|]. split; [reflexivity|].
  exact (fetch_all_items_second_page_fails
           0 two_page_client (mkCallable "list_clusters" _) clusterArns
           [("maxResults", AInt 100)]
           (mkResponse (Some ["cluster/a"]) None None None None (Some "t1"))
           ["cluster/a"] "t1" initial eq_refl eq_refl eq_refl eq_refl).
Defined.

(* ------------------------------------------------------------------ *)
(** * Counting the compliant entries in the printed list *)

Lemma count_skip (c : ascii) (s : string) :
  c <> " "%char -> occurrences (String c s) = occurrences s.
Proof.
  intros H. unfold occurrences. cbn [PyStr.count_from PyStr.startswith].
  destruct (Ascii.eqb_spec " " c) as [E|_]; [congruence | reflexivity].
Qed.

Lemma count_space_skip (d : ascii) (s : string) :
  d <> "'"%char -> occurrences (String " " (String d s)) = occurrences (String d s).
Proof.
  intros H. unfold occurrences. cbn [PyStr.count_from PyStr.startswith].
  rewrite Ascii.eqb_refl.
  destruct (Ascii.eqb_spec "'" d) as [E|_]; [congruence | reflexivity].
Qed.

Lemma count_match (s : string) :
  occurrences (" 'COMPLIANT']" +++ s) = S (occurrences s).
Proof. reflexivity. Qed.

Lemma count_quote_free (u w : string) :
  ~ occurs "'" u -> occurrences (u +++ w) = occurrences (last_space u +++ w).
Proof.
  induction u as [|c u IH]; [reflexivity|].
  intros H. simpl in H.
  destruct u as [|d u'].
  - cbn [last_space append].
    destruct (Ascii.eqb_spec c " ") as [->|Hc]; [reflexivity|].
    now apply count_skip.
  - change (last_space (String c (String d u'))) with (last_space (String d u')).
    rewrite <- IH by tauto.
    cbn [append].
    destruct (Ascii.eqb_spec c " ") as [->|Hc].
    + apply count_space_skip. simpl in H. intros ->. tauto.
    + now apply count_skip.
Qed.

Lemma repr_char_quote_free (c : ascii) :
  c <> "'"%char -> ~ occurs "'" (PyStr.repr_char PyStr.squote c).
Proof.
  destruct c as [[] [] [] [] [] [] [] []]; intros H; vm_compute;
    intros H'; decompose [or] H'; try discriminate; try contradiction;
    now apply H.
Qed.

Lemma repr_body_quote_free (k : string) :
  ~ occurs "'" k -> ~ occurs "'" (PyStr.repr_body PyStr.squote k).
Proof.
  induction k as [|c k IH]; simpl; [tauto|].
  intros H. rewrite occurs_append. intros [H'|H'].
  - apply (repr_char_quote_free c); [intros -> |]; tauto.
  - apply IH; tauto.
Qed.

Lemma repr_quote_free (k : string) :
  ~ occurs "'" k ->
  PyStr.repr k = String "'" (PyStr.repr_body "'" k +++ "'").
Proof.
  intros H. apply contains_char_false in H.
  unfold PyStr.repr, PyStr.squote in *. now rewrite H.
Qed.

Lemma printed_pair (k v rest : string) :
  ~ occurs "'" k ->
  repr_checked (Pair k v) +++ rest
  = "['" +++ PyStr.repr_body "'" k +++ "', " +++ PyStr.repr v +++ "]" +++ rest.
Proof.
  intros H. unfold repr_checked, PyStr.repr_list.
  cbn [PyStr.join_comma]. rewrite (repr_quote_free k H).
  cbn [append]. repeat rewrite append_assoc. reflexivity.
Qed.

Lemma last_space_cases (u : string) :
  last_space u = EmptyString \/ last_space u = " ".
Proof.
  induction u as [|c [|d u] IH]; simpl; auto.
  destruct (Ascii.eqb c " "); auto.
Qed.

Lemma count_after_key (k rest : string) :
  ~ occurs "'" k ->
  occurrences (PyStr.repr_body "'" k +++ "', " +++ rest) = occurrences (String " " rest).
Proof.
  intros H. rewrite count_quote_free by now apply repr_body_quote_free.
  destruct (last_space_cases (PyStr.repr_body "'" k)) as [-> | ->];
    reflexivity.
Qed.

(** What one printed entry adds to the count, whether it opens the list
    or follows a comma and a space. *)
Lemma count_entry (t : Tag) (rest : string) :
  ~ occurs "'" (key t) ->
  occurrences (repr_checked (check_tag t) +++ rest)
    = count_compliant [check_tag t] + occurrences rest /\
  occurrences (String " " (repr_checked (check_tag t) +++ rest))
    = count_compliant [check_tag t] + occurrences rest.
Proof.
  intros H.
  assert (Hc : forall v,
             occurrences (repr_checked (Pair (key t) v) +++ rest)
               = occurrences (String " " (PyStr.repr v +++ "]" +++ rest)) /\
             occurrences (String " " (repr_checked (Pair (key t) v) +++ rest))
               = occurrences (String " " (PyStr.repr v +++ "]" +++ rest))).
  { intros v. rewrite (printed_pair _ v rest H).
    rewrite <- (count_after_key (key t) _ H). split; reflexivity. }
  unfold check_tag.
  repeat match goal with
         | |- context [if ?b then _ else _] => destruct b
         end;
    try (destruct (Hc "COMPLIANT") as [-> ->]; split; reflexivity);
    try (destruct (Hc "NON_COMPLIANT") as [-> ->]; split; reflexivity);
    split; reflexivity.
Qed.

Lemma count_entries (tags : list Tag) (rest : string) :
  Forall (fun t => ~ occurs "'" (key t)) tags ->
  occurrences (PyStr.join_comma (map repr_checked (map check_tag tags)) +++ rest)
    = count_compliant (map check_tag tags) + occurrences rest /\
  (tags <> [] ->
   occurrences (String " " (PyStr.join_comma (map repr_checked (map check_tag tags)) +++ rest))
     = count_compliant (map check_tag tags) + occurrences rest).
Proof.
  induction 1 as [|t l Ht Hl [IH1 IH2]].
  - split; [reflexivity | congruence].
  - assert (Hone : forall c l', count_compliant (c :: l')
                                = count_compliant [c] + count_compliant l').
    { intros [k v|s] l'; simpl; lia. }
    destruct l as [|t' l'].
    + cbn [map PyStr.join_comma count_compliant].
      destruct (count_entry t rest Ht) as [E1 E2].
      split; [exact E1 | intros _; exact E2].
    + assert (Hne : t' :: l' <> []) by discriminate.
      specialize (IH2 Hne).
      change (PyStr.join_comma
                (map repr_checked (map check_tag (t :: t' :: l'))))
        with (repr_checked (check_tag t) +++ ", " +++
              PyStr.join_comma (map repr_checked (map check_tag (t' :: l')))).
      rewrite append_assoc.
      destruct (count_entry t
                  (", " +++
                   PyStr.join_comma
                     (map repr_checked (map check_tag (t' :: l'))) +++ rest) Ht)
        as [E1 E2].
      rewrite append_assoc.
      change ((", " +++ ?x) +++ rest) with (", " +++ x +++ rest).
      rewrite E1, E2.
      change (map check_tag (t :: t' :: l'))
        with (check_tag t :: map check_tag (t' :: l')).
      pose proof (Hone (check_tag t) (map check_tag (t' :: l'))) as Hsum.
      assert (Hcomma : forall s, occurrences (", " +++ s) = occurrences (String " " s))
        by reflexivity.
      rewrite Hcomma, IH2. split; [lia | intros _; lia].
Qed.

(** When no key has a single quote, the count read off the printed list
    is the number of entries marked COMPLIANT. *)
Lemma compliance_count_entries (tags : list Tag) :
  Forall (fun t => ~ occurs "'" (key t)) tags ->
  compliance_count (tag_regex_filtering tags)
  = count_compliant (tag_regex_filtering tags).
Proof.
  intros H. rewrite tag_regex_filtering_map.
  unfold compliance_count, str_checked, PyStr.repr_list, PyStr.count.
  change (PyStr.count_from " 'COMPLIANT']" 0 ?s) with (occurrences s).
  change (occurrences ("[" +++ ?s)) with (occurrences s).
  rewrite (proj1 (count_entries tags "]" H)).
  change (occurrences "]") with 0. lia.
Qed.

Lemma push_inj (e1 e2 : Evaluation) (st : State) :
  push e1 st = push e2 st -> e1 = e2.
Proof.
  unfold push. intros [= H]. apply app_inv_head in H. congruence.
Qed.

(** The evaluation of a cluster with tags whose keys have no single
    quote is COMPLIANT exactly when the number of entries marked
    COMPLIANT is the minimum. *)
Lemma cluster_eval_compliant_iff_entries (fuel : nat) (client : Client)
    (arn name : string) (minimum : nat) (t : Tag) (l : list Tag)
    (st st1 : State) :
  Forall (fun t => ~ occurs "'" (key t)) (t :: l) ->
  fetches_tags fuel client arn st (t :: l) st1 ->
  (count_compliant (tag_regex_filtering (t :: l)) = minimum <->
   cluster_eval fuel client arn minimum name st
   = (Ret tt, push (mkEvaluation COMPLIANT arn "AWS::ECS::Cluster"
                      (PyStr.slice_to 255 (compliant_text name))) st1)) /\
  (count_compliant (tag_regex_filtering (t :: l)) <> minimum <->
   cluster_eval fuel client arn minimum name st
   = (Ret tt, push (mkEvaluation NON_COMPLIANT arn "AWS::ECS::Cluster"
                      (PyStr.slice_to 255
                         (non_compliant_text name
                            (str_checked (tag_regex_filtering (t :: l))))))
                   st1)).
Proof.
  intros Hkeys Hf. rewrite <- (compliance_count_entries _ Hkeys).
  rewrite (cluster_eval_run _ _ _ _ _ _ _ _ Hf).
  unfold tags_evaluation.
  destruct (Nat.eqb_spec (compliance_count (tag_regex_filtering (t :: l)))
                         minimum) as [E|E];
    split; split; intros H; try reflexivity; try assumption;
    try contradiction;
    exfalso; apply (f_equal snd) in H; cbn [snd] in H;
    apply push_inj in H; apply (f_equal complianceType) in H; discriminate.
Qed.

(* ------------------------------------------------------------------ *)
(** * The length of annotations *)

Lemma tags_evaluation_annotated (c : ComplianceType) (id type name : string)
    (minimum : nat) (l : list Tag) :
  exists text,
    annotated (tags_evaluation c id type name minimum l) text /\
    template_instance text.
Proof.
  unfold tags_evaluation. destruct l as [|t l].
  - exists (no_tags_text name). split; [apply annotated_slice|].
    exists name. auto.
  - destruct (_ =? _)%nat.
    + exists (compliant_text name). split; [apply annotated_slice|].
      exists name. auto.
    + eexists. split; [apply annotated_slice|].
      exists name. eauto 6.
Qed.

Lemma evaluator_appends_annotated (fuel : nat) (client : Client)
    (arn name : string) (minimum : nat) (st st' : State) :
  taskDefinition_eval fuel client arn minimum st = (Ret tt, st') \/
  service_eval fuel client arn minimum name st = (Ret tt, st') \/
  cluster_eval fuel client arn minimum name st = (Ret tt, st') ->
  exists e text,
    evaluations st' = evaluations st ++ [e] /\
    annotated e text /\ template_instance text.
Proof.
  intros [H|[H|H]].
  - apply taskDefinition_eval_inv in H as (n & more & l & st1 & _ & Hf & ->).
    destruct (tags_evaluation_annotated NON_COMPLIANT arn
                "AWS::ECS::TaskDefinition" n minimum l) as (text & Ha & Ht).
    eexists; exists text. split; [|split; eassumption].
    simpl. now rewrite (fetches_tags_keeps _ _ _ _ _ _ Hf).
  - apply service_eval_inv in H as [(_ & ->)|(_ & l & st1 & Hf & ->)].
    + eexists; exists (old_arn_text name). split; [reflexivity|].
      split; [apply annotated_slice|]. exists name. auto.
    + destruct (tags_evaluation_annotated NON_COMPLIANT arn
                  "AWS::ECS::Service" name minimum l) as (text & Ha & Ht).
      eexists; exists text. split; [|split; eassumption].
      simpl. now rewrite (fetches_tags_keeps _ _ _ _ _ _ Hf).
  - apply cluster_eval_inv in H as (l & st1 & Hf & ->).
    destruct (tags_evaluation_annotated COMPLIANT arn
                "AWS::ECS::Cluster" name minimum l) as (text & Ha & Ht).
    eexists; exists text. split; [|split; eassumption].
    simpl. now rewrite (fetches_tags_keeps _ _ _ _ _ _ Hf).
Qed.

Lemma keeps_bounded_keeps {A} (m : M A) : keeps m -> keeps_bounded m.
Proof.
  intros H st a st' Hb E. now rewrite (keeps_run _ _ _ _ H E).
Qed.

Lemma keeps_bounded_bind {A B} (m : M A) (k : A -> M B) :
  keeps_bounded m -> (forall a, keeps_bounded (k a)) -> keeps_bounded (bind m k).
Proof.
  intros Hm Hk st b st' Hb E.
  apply bind_inv in E as (a & st1 & E1 & E2).
  eapply Hk; [|exact E2]. eapply Hm; eassumption.
Qed.

Lemma keeps_bounded_for_each {A} (l : list A) (f : A -> M unit) :
  (forall x, keeps_bounded (f x)) -> keeps_bounded (for_each l f).
Proof.
  intros Hf. induction l as [|x l IH]; simpl.
  - apply keeps_bounded_keeps, keeps_ret.
  - apply keeps_bounded_bind; [apply Hf | intros _; apply IH].
Qed.

Lemma keeps_bounded_evaluator (m : M unit) :
  (forall st st', m st = (Ret tt, st') ->
     exists e text, evaluations st' = evaluations st ++ [e] /\
                    annotated e text /\ template_instance text) ->
  keeps_bounded m.
Proof.
  intros H st [] st' Hb E.
  destruct (H st st' E) as (e & text & -> & (_ & Hlen & _) & _).
  apply Forall_app. split; [assumption|]. now constructor.
Qed.

Lemma keeps_bounded_taskDefinition_eval fuel client arn minimum :
  keeps_bounded (taskDefinition_eval fuel client arn minimum).
Proof.
  apply keeps_bounded_evaluator. intros st st' H.
  apply (evaluator_appends_annotated fuel client arn "" minimum). auto.
Qed.

Lemma keeps_bounded_service_eval fuel client arn minimum name :
  keeps_bounded (service_eval fuel client arn minimum name).
Proof.
  apply keeps_bounded_evaluator. intros st st' H.
  apply (evaluator_appends_annotated fuel client arn name minimum). auto.
Qed.

Lemma keeps_bounded_cluster_eval fuel client arn minimum name :
  keeps_bounded (cluster_eval fuel client arn minimum name).
Proof.
  apply keeps_bounded_evaluator. intros st st' H.
  apply (evaluator_appends_annotated fuel client arn name minimum). auto.
Qed.

Lemma keeps_bounded_walk_cluster fuel client minimum cluster :
  keeps_bounded (walk_cluster fuel client minimum cluster).
Proof.
  unfold walk_cluster.
  apply keeps_bounded_bind; [apply keeps_bounded_keeps, keeps_index0|]; intros n.
  apply keeps_bounded_bind; [apply keeps_bounded_cluster_eval|]; intros _.
  apply keeps_bounded_bind; [apply keeps_bounded_keeps, keeps_getattr|]; intros f.
  apply keeps_bounded_bind;
    [apply keeps_bounded_keeps, keeps_fetch_all_items|]; intros l.
  destruct (0 <? List.length l)%nat; [|apply keeps_bounded_keeps, keeps_ret].
  apply keeps_bounded_bind; [apply keeps_bounded_keeps, keeps_getattr|]; intros d.
  apply keeps_bounded_bind; [apply keeps_bounded_keeps, keeps_call|]; intros r.
  apply keeps_bounded_bind; [apply keeps_bounded_keeps, keeps_subscript|]; intros s.
  apply keeps_bounded_for_each. intros x. apply keeps_bounded_service_eval.
Qed.

Lemma evaluate_periodic_bounded cleanup fuel client st batch st' :
  evaluate_periodic cleanup fuel client st = (Ret batch, st') ->
  bounded batch.
Proof.
  unfold evaluate_periodic. intros H.
  apply bind_inv in H as (f1 & s1 & _ & H).
  apply bind_inv in H as (clusters & s2 & _ & H).
  apply bind_inv in H as (f2 & s3 & _ & H).
  apply bind_inv in H as (tasks & s4 & _ & H).
  apply bind_inv in H as ([] & s5 & H5 & H).
  apply bind_inv in H as ([] & s6 & H6 & H).
  apply bind_inv in H as ([] & s7 & H7 & H).
  apply bind_inv in H as (result & s8 & H8 & H).
  assert (Hb : bounded (evaluations s7)).
  { apply (keeps_bounded_for_each clusters _
             (keeps_bounded_walk_cluster fuel client 3) s6 tt s7); [|exact H7].
    apply (keeps_bounded_for_each tasks _
             (fun t => keeps_bounded_taskDefinition_eval fuel client t 3)
             s5 tt s6); [|exact H6].
    unfold new_evaluations in H5. injection H5 as <-. constructor. }
  unfold get_evaluations in H8. injection H8 as <- <-.
  destruct (evaluations s7) as [|e l] eqn:E.
  - injection H as <- _. constructor.
  - destruct (cleanup (e :: l)); [discriminate|].
    injection H as <- _. assumption.
Qed.

(** C8: an evaluator that returns has appended one evaluation whose
    annotation is one of the four texts cut to its first 255 characters:
    never longer than 255, exactly 255 long when the text is longer, the
    text itself otherwise.  So every annotation in the batch of
    [evaluate_periodic] has at most 255 characters. *)
Theorem annotations_at_most_255 :
  (forall fuel client arn name minimum st st',
     taskDefinition_eval fuel client arn minimum st = (Ret tt, st') \/
     service_eval fuel client arn minimum name st = (Ret tt, st') \/
     cluster_eval fuel client arn minimum name st = (Ret tt, st') ->
     exists e text,
       evaluations st' = evaluations st ++ [e] /\
       template_instance text /\
       annotation e = PyStr.slice_to 255 text /\
       String.length (annotation e) <= 255 /\
       (255 < String.length text -> String.length (annotation e) = 255)) /\
  (forall cleanup fuel client st batch st',
     evaluate_periodic cleanup fuel client st = (Ret batch, st') ->
     Forall (fun e => String.length (annotation e) <= 255) batch).
Proof.
  split.
  - intros fuel client arn name minimum st st' H.
    destruct (evaluator_appends_annotated _ _ _ _ _ _ _ H)
      as (e & text & He & (Ha & Hlen & Hcut & _) & Ht).
    exists e, text. auto.
  - intros cleanup fuel client st batch st' H.
    exact (evaluate_periodic_bounded _ _ _ _ _ _ H).
Qed.

Lemma annotations_at_most_255_witness :
  service_eval 0 (tags_client []) "service/api" 3 (repeat_char "n" 300) initial
    = (Ret tt, snd (service_eval 0 (tags_client []) "service/api" 3
                                 (repeat_char "n" 300) initial)) /\
  exists e text,
    evaluations (snd (service_eval 0 (tags_client []) "service/api" 3
                                   (repeat_char "n" 300) initial))
      = evaluations initial ++ [e] /\
    template_instance text /\
    annotation e = PyStr.slice_to 255 text /\
    String.length (annotation e) <= 255 /\
    (255 < String.length text -> String.length (annotation e) = 255).
Proof.
  split; [reflexivity|].
  exact (proj1 annotations_at_most_255 0 (tags_client []) "service/api"
           (repeat_char "n" 300) 3 initial _ (or_intror (or_introl eq_refl))).
Defined.

(* ------------------------------------------------------------------ *)
(** * Identifiers without a separator *)

Lemma fails_bind_l {A B} (m : M A) (k : A -> M B) : fails m -> fails (bind m k).
Proof.
  intros H st b. unfold bind. specialize (H st).
  destruct (m st) as [[a|e|] st1]; simpl in *; try discriminate.
  now destruct (H a).
Qed.

Lemma not_ret_bind {A B} (m : M A) (k : A -> M B) (st : State) :
  (forall a st1, m st = (Ret a, st1) -> forall b, fst (k a st1) <> Ret b) ->
  forall b, fst (bind m k st) <> Ret b.
Proof.
  intros H b. unfold bind.
  destruct (m st) as [[a|e|] st1]; simpl; try discriminate.
  now apply H.
Qed.

Lemma fails_bind_r {A B} (m : M A) (k : A -> M B) :
  (forall a, fails (k a)) -> fails (bind m k).
Proof. intros H st. apply not_ret_bind. intros a st1 _. apply H. Qed.

Lemma fails_for_each {A} (l : list A) (f : A -> M unit) (x : A) :
  In x l -> fails (f x) -> fails (for_each l f).
Proof.
  intros Hin Hx. induction l as [|y l IH]; [destruct Hin|].
  simpl. destruct Hin as [->|Hin].
  - now apply fails_bind_l.
  - apply fails_bind_r. intros _. now apply IH.
Qed.

Lemma taskDefinition_eval_no_separator (fuel : nat) (client : Client)
    (arn : string) (minimum : nat) (st : State) :
  ~ occurs "/" arn ->
  taskDefinition_eval fuel client arn minimum st = (Raise IndexError, st).
Proof.
  intros H. apply findall_nameregex_empty_iff in H.
  unfold taskDefinition_eval. now rewrite H.
Qed.

Lemma walk_cluster_no_separator (fuel : nat) (client : Client)
    (minimum : nat) (cluster : string) (st : State) :
  ~ occurs "/" cluster ->
  walk_cluster fuel client minimum cluster st = (Raise IndexError, st).
Proof.
  intros H. apply findall_nameregex_empty_iff in H.
  unfold walk_cluster. now rewrite H.
Qed.

Lemma lists_run {A B} (fuel : nat) (client : Client) (name : string)
    (response_key : Response -> option (list A)) (kw : kwargs)
    (items : list A) (k : list A -> M B) (st : State) :
  lists fuel client name response_key kw items ->
  exists st1,
    evaluations st1 = evaluations st /\
    bind (getattr client name)
         (fun m => bind (fetch_all_items fuel client m response_key kw) k) st
    = k items st1.
Proof.
  intros (m & Hm & Hret). unfold getattr. rewrite Hm.
  erewrite bind_run by reflexivity.
  specialize (Hret st).
  destruct (fetch_all_items fuel client (mkCallable name m) response_key kw st)
    as [o st1] eqn:E.
  simpl in Hret. subst o. exists st1. split.
  - eapply keeps_run; [|exact E]. apply keeps_fetch_all_items.
  - now apply bind_run.
Qed.

Lemma lists_fails {A B} (fuel : nat) (client : Client) (name : string)
    (response_key : Response -> option (list A)) (kw : kwargs)
    (items : list A) (k : list A -> M B) :
  lists fuel client name response_key kw items ->
  fails (k items) ->
  fails (bind (getattr client name)
              (fun m => bind (fetch_all_items fuel client m response_key kw) k)).
Proof.
  intros Hl Hk st b.
  destruct (lists_run _ _ _ _ _ _ k st Hl) as (st1 & _ & ->). apply Hk.
Qed.

Lemma evaluate_periodic_no_separator cleanup fuel client tasks clusters id :
  lists fuel client "list_clusters" clusterArns [("maxResults", AInt 100)] clusters ->
  lists fuel client "list_task_definitions" taskDefinitionArns
        [("maxResults", AInt 100)] tasks ->
  In id (tasks ++ clusters) ->
  ~ occurs "/" id ->
  fails (evaluate_periodic cleanup fuel client).
Proof.
  intros Hc Ht Hin Hid. unfold evaluate_periodic.
  apply (lists_fails _ _ _ _ _ _ _ Hc).
  apply (lists_fails _ _ _ _ _ _ _ Ht).
  apply fails_bind_r. intros _.
  apply in_app_or in Hin as [Hin|Hin].
  - apply fails_bind_l. apply (fails_for_each _ _ id Hin).
    intros s a. now rewrite taskDefinition_eval_no_separator.
  - apply fails_bind_r. intros _. apply fails_bind_l.
    apply (fails_for_each _ _ id Hin).
    intros s a. now rewrite walk_cluster_no_separator.
Qed.

(** C10: the name of a task definition or cluster can be extracted
    exactly when its identifier has a separator.  Without one the match
    list is empty, taking its first element raises IndexError in
    [taskDefinition_eval] and in the loop over the clusters, before any
    client call and without an evaluation, and a pass whose listings
    contain such an identifier returns no batch. *)
Theorem no_separator_aborts_the_pass :
  (forall arn, Re.findall nameregex arn = [] <-> ~ occurs "/" arn) /\
  (forall arn st, (exists name, index0 (Re.findall nameregex arn) st = (Ret name, st))
                  <-> occurs "/" arn) /\
  (forall fuel client arn minimum st,
     ~ occurs "/" arn ->
     taskDefinition_eval fuel client arn minimum st = (Raise IndexError, st) /\
     walk_cluster fuel client minimum arn st = (Raise IndexError, st)) /\
  (forall cleanup fuel client tasks clusters id,
     lists fuel client "list_clusters" clusterArns
           [("maxResults", AInt 100)] clusters ->
     lists fuel client "list_task_definitions" taskDefinitionArns
           [("maxResults", AInt 100)] tasks ->
     In id (tasks ++ clusters) ->
     ~ occurs "/" id ->
     forall st batch,
       fst (evaluate_periodic cleanup fuel client st) <> Ret batch).
Proof.
  split; [exact findall_nameregex_empty_iff|]. split; [|split].
  - intros arn st. split.
    + intros (name & H). destruct (Re.findall nameregex arn) eqn:E;
        [discriminate|].
      destruct (contains_char "/" arn) as [Hc _].
      destruct (PyStr.contains "/" arn) eqn:Ec; [now apply Hc|].
      apply contains_char_false in Ec.
      apply findall_nameregex_empty_iff in Ec. congruence.
    + intros H. apply occurs_split in H as (pre & rest & -> & Hpre).
      destruct (findall_nameregex_head pre rest Hpre) as [more ->].
      now exists (line rest).
  - intros fuel client arn minimum st H. split.
    + now apply taskDefinition_eval_no_separator.
    + now apply walk_cluster_no_separator.
  - intros cleanup fuel client tasks clusters id Hc Ht Hin Hid.
    exact (evaluate_periodic_no_separator _ _ _ _ _ _ Hc Ht Hin Hid).
Qed.

Lemma no_separator_aborts_the_pass_witness :
  ~ occurs "/" "default" /\
  lists 0 odd_cluster_client "list_clusters" clusterArns
        [("maxResults", AInt 100)] ["default"] /\
  lists 0 odd_cluster_client "list_task_definitions" taskDefinitionArns
        [("maxResults", AInt 100)] [] /\
  walk_cluster 0 odd_cluster_client 3 "default" initial
    = (Raise IndexError, initial) /\
  forall batch,
    fst (evaluate_periodic (fun _ => None) 0 odd_cluster_client initial)
    <> Ret batch.
Proof.
  assert (H : ~ occurs "/" "default").
  { simpl. intros H. decompose [or] H; try discriminate; assumption. }
  assert (Hc : lists 0 odd_cluster_client "list_clusters" clusterArns
                     [("maxResults", AInt 100)] ["default"]).
  { eexists. split; [reflexivity|]. intros st. reflexivity. }
  assert (Ht : lists 0 odd_cluster_client "list_task_definitions"
                     taskDefinitionArns [("maxResults", AInt 100)] []).
  { eexists. split; [reflexivity|]. intros st. reflexivity. }
  split; [exact H|]. split; [exact Hc|]. split; [exact Ht|]. split.
  - exact (proj2 (proj1 (proj2 (proj2 no_separator_aborts_the_pass))
                   0 odd_cluster_client "default" 3 initial H)).
  - exact (proj2 (proj2 (proj2 no_separator_aborts_the_pass))
             (fun _ => None) 0 odd_cluster_client [] ["default"] "default"
             Hc Ht (or_introl eq_refl) H initial).
Defined.

(* ------------------------------------------------------------------ *)
(** * The order of the batch *)

Lemma emits_ret : emits (ret tt) [].
Proof. intros st. exists st. split; [reflexivity|]. now rewrite app_nil_r. Qed.

Lemma emits_seq (m1 m2 : M unit) (a b : list (string * string)) :
  emits m1 a -> emits m2 b -> emits (m1 ;;; m2) (a ++ b).
Proof.
  intros H1 H2 st.
  destruct (H1 st) as (s1 & E1 & M1). destruct (H2 s1) as (s2 & E2 & M2).
  exists s2. split.
  - now rewrite (bind_run _ _ _ _ _ E1).
  - now rewrite M2, M1, app_assoc.
Qed.

Lemma emits_for_each {A} (l : list A) (f : A -> M unit)
    (g : A -> list (string * string)) :
  Forall (fun x => emits (f x) (g x)) l -> emits (for_each l f) (flat_map g l).
Proof.
  induction 1 as [|x l Hx _ IH]; simpl.
  - apply emits_ret.
  - now apply emits_seq.
Qed.

Lemma flat_map_singleton {A B} (g : A -> B) (l : list A) :
  flat_map (fun x => [g x]) l = map g l.
Proof. induction l as [|x l IH]; simpl; congruence. Qed.

Lemma lists_emits {A} (fuel : nat) (client : Client) (name : string)
    (response_key : Response -> option (list A)) (kw : kwargs)
    (items : list A) (k : list A -> M unit) (ids : list (string * string)) :
  lists fuel client name response_key kw items ->
  emits (k items) ids ->
  emits (bind (getattr client name)
              (fun m => bind (fetch_all_items fuel client m response_key kw) k))
        ids.
Proof.
  intros Hl Hk st.
  destruct (lists_run _ _ _ _ _ _ k st Hl) as (st1 & E & ->).
  destruct (Hk st1) as (st' & Hrun & Hmap).
  exists st'. split; [assumption|]. now rewrite Hmap, E.
Qed.

Lemma id_type_tags_evaluation (c : ComplianceType) (id type name : string)
    (minimum : nat) (l : list Tag) :
  id_type (tags_evaluation c id type name minimum l) = (id, type).
Proof.
  unfold tags_evaluation. destruct l; [reflexivity|].
  now destruct (_ =? _)%nat.
Qed.

Lemma has_tags_fetches (fuel : nat) (client : Client) (arn : string) (st : State) :
  has_tags fuel client arn ->
  exists l st1, fetches_tags fuel client arn st l st1.
Proof.
  intros (l & m & Hm & Hret). specialize (Hret st).
  destruct (fetch_all_items fuel client
              (mkCallable "list_tags_for_resource" m) tags
              [("resourceArn", AStr arn)] st) as [o st1] eqn:E.
  simpl in Hret. subst o. exists l, st1, m. auto.
Qed.

Lemma map_id_type_push (e : Evaluation) (st st1 : State) :
  evaluations st1 = evaluations st ->
  map id_type (evaluations (push e st1))
  = map id_type (evaluations st) ++ [id_type e].
Proof. intros E. simpl. now rewrite map_app, E. Qed.

Lemma emits_taskDefinition_eval (fuel : nat) (client : Client)
    (arn : string) (minimum : nat) :
  occurs "/" arn -> has_tags fuel client arn ->
  emits (taskDefinition_eval fuel client arn minimum)
        [(arn, "AWS::ECS::TaskDefinition")].
Proof.
  intros Hsep Htags st.
  apply occurs_split in Hsep as (pre & rest & -> & Hpre).
  destruct (findall_nameregex_head pre rest Hpre) as [more Hname].
  destruct (has_tags_fetches _ _ _ st Htags) as (l & st1 & Hf).
  eexists. split.
  - exact (taskDefinition_eval_run _ _ _ _ _ _ _ _ _ Hname Hf).
  - rewrite (map_id_type_push _ st st1 (fetches_tags_keeps _ _ _ _ _ _ Hf)).
    now rewrite id_type_tags_evaluation.
Qed.

Lemma emits_cluster_eval (fuel : nat) (client : Client)
    (arn name : string) (minimum : nat) :
  has_tags fuel client arn ->
  emits (cluster_eval fuel client arn minimum name) [(arn, "AWS::ECS::Cluster")].
Proof.
  intros Htags st.
  destruct (has_tags_fetches _ _ _ st Htags) as (l & st1 & Hf).
  eexists. split.
  - exact (cluster_eval_run _ _ _ _ _ _ _ _ Hf).
  - rewrite (map_id_type_push _ st st1 (fetches_tags_keeps _ _ _ _ _ _ Hf)).
    now rewrite id_type_tags_evaluation.
Qed.

Lemma emits_service_eval (fuel : nat) (client : Client)
    (arn name : string) (minimum : nat) :
  (2 <= count_char "/" arn -> has_tags fuel client arn) ->
  emits (service_eval fuel client arn minimum name) [(arn, "AWS::ECS::Service")].
Proof.
  intros Htags st. destruct (1 <? separators arn)%nat eqn:Hsep.
  - destruct (has_tags_fetches _ _ _ st (Htags (proj2 (separators_many arn) Hsep)))
      as (l & st1 & Hf).
    eexists. split.
    + exact (service_eval_run _ _ _ _ _ _ _ _ Hsep Hf).
    + rewrite (map_id_type_push _ st st1 (fetches_tags_keeps _ _ _ _ _ _ Hf)).
      now rewrite id_type_tags_evaluation.
  - eexists. split.
    + exact (service_eval_old_arn _ _ _ _ _ _ Hsep).
    + now rewrite (map_id_type_push _ st st eq_refl).
Qed.

Lemma emits_walk_cluster (fuel : nat) (client : Client) (minimum : nat)
    (cluster : string) (described : list Service) :
  occurs "/" cluster ->
  has_tags fuel client cluster ->
  lists fuel client "list_services" serviceArns
        [("cluster", AStr cluster); ("maxResults", AInt 100)]
        (map serviceArn described) ->
  describes client cluster described ->
  Forall (fun s => 2 <= count_char "/" (serviceArn s) ->
                   has_tags fuel client (serviceArn s)) described ->
  emits (walk_cluster fuel client minimum cluster)
        ((cluster, "AWS::ECS::Cluster") ::
         map (fun s => (serviceArn s, "AWS::ECS::Service")) described).
Proof.
  intros Hsep Htags Hlist Hdesc Hsvc. unfold walk_cluster.
  apply occurs_split in Hsep as (pre & rest & -> & Hpre).
  destruct (findall_nameregex_head pre rest Hpre) as [more ->].
  cbn [index0].
  change (bind (ret (line rest)) ?k) with (k (line rest)). cbv beta.
  apply (emits_seq _ _ [_] _); [now apply emits_cluster_eval|].
  apply (lists_emits _ _ _ _ _ _ _ _ Hlist).
  destruct Hdesc as [->|(d & r & Hd & Hr & Hs)]; [apply emits_ret|].
  rewrite length_map.
  destruct described as [|s0 described']; [apply emits_ret|].
  cbn [List.length].
  change (0 <? S (List.length described'))%nat with true. cbv iota.
  set (described := s0 :: described') in *.
  intros st. unfold getattr. rewrite Hd.
  erewrite bind_run by reflexivity.
  erewrite bind_run by (unfold call; cbn [body]; rewrite Hr; reflexivity).
  rewrite Hs. erewrite bind_run by reflexivity.
  assert (He : emits (for_each described
                        (fun service =>
                           service_eval fuel client (serviceArn service) minimum
                                        (serviceName service)))
                     (flat_map (fun s => [(serviceArn s, "AWS::ECS::Service")])
                               described)).
  { apply emits_for_each. eapply Forall_impl; [|exact Hsvc].
    intros s Hs'. now apply emits_service_eval. }
  rewrite flat_map_singleton in He.
  destruct (He (mkState (evaluations st)
                  (calls st ++
                   [("describe_services",
                     [("cluster", AStr (pre +++ String "/" rest));
                      ("services", AList (map serviceArn described))])])))
    as (st' & E & Hm).
  exists st'. split; assumption.
Qed.

Lemma emits_clusters (fuel : nat) (client : Client) (minimum : nat)
    (l : list (string * list Service)) :
  Forall (fun c =>
            occurs "/" (fst c) /\ has_tags fuel client (fst c) /\
            lists fuel client "list_services" serviceArns
                  [("cluster", AStr (fst c)); ("maxResults", AInt 100)]
                  (map serviceArn (snd c)) /\
            describes client (fst c) (snd c) /\
            Forall (fun s => 2 <= count_char "/" (serviceArn s) ->
                             has_tags fuel client (serviceArn s))
                   (snd c)) l ->
  emits (for_each (map fst l) (walk_cluster fuel client minimum))
        (flat_map (fun c => (fst c, "AWS::ECS::Cluster") ::
                            map (fun s => (serviceArn s, "AWS::ECS::Service"))
                                (snd c)) l).
Proof.
  induction 1 as [|[c described] l (H1 & H2 & H3 & H4 & H5) _ IH];
    [apply emits_ret|].
  cbn [map fst for_each flat_map snd].
  apply emits_seq; [|exact IH].
  now apply emits_walk_cluster.
Qed.

Lemma length_expected_batch (f : fleet) :
  List.length (expected_batch f)
  = List.length (fleet_task_definitions f) +
    list_sum (map (fun c => 1 + List.length (snd c)) (fleet_clusters f)).
Proof.
  unfold expected_batch. rewrite length_app, length_map. f_equal.
  induction (fleet_clusters f) as [|c l IH]; [reflexivity|].
  cbn [flat_map map list_sum fold_right].
  rewrite length_app. cbn [List.length]. rewrite length_map.
  change (fold_right Nat.add 0 ?x) with (list_sum x). rewrite <- IH. lia.
Qed.

(** C9: when the collaborators answer for a fleet and the reporting step
    returns, one pass returns a batch with exactly one evaluation for
    each task definition, cluster and service: first the task
    definitions in listing order, then for each cluster in listing order
    the cluster followed by its services. *)
Theorem batch_follows_the_fleet cleanup (fuel : nat) (client : Client)
    (f : fleet) (st : State) :
  serves fuel client f ->
  (forall batch, cleanup batch = None) ->
  exists batch st',
    evaluate_periodic cleanup fuel client st = (Ret batch, st') /\
    map id_type batch = expected_batch f /\
    List.length batch
    = List.length (fleet_task_definitions f) +
      list_sum (map (fun c => 1 + List.length (snd c)) (fleet_clusters f)).
Proof.
  intros (Hc & Ht & Htasks & Hclusters) Hclean.
  assert (Hpass :
    emits (for_each (fleet_task_definitions f)
                    (fun task => taskDefinition_eval fuel client task 3) ;;;
           for_each (map fst (fleet_clusters f)) (walk_cluster fuel client 3))
          (expected_batch f)).
  { apply emits_seq.
    - rewrite <- flat_map_singleton. apply emits_for_each.
      eapply Forall_impl; [|exact Htasks].
      intros task [H1 H2]. now apply emits_taskDefinition_eval.
    - now apply emits_clusters. }
  destruct (lists_run _ _ _ _ _ _
              (fun list_clusters =>
                 list_task_definitions <- getattr client "list_task_definitions" ;;
                 task_definition_arns <-
                   fetch_all_items fuel client list_task_definitions
                                   taskDefinitionArns [("maxResults", AInt 100)] ;;
                 new_evaluations ;;;
                 for_each task_definition_arns
                   (fun task => taskDefinition_eval fuel client task 3) ;;;
                 for_each list_clusters (walk_cluster fuel client 3) ;;;
                 result <- get_evaluations ;;
                 match result with
                 | _ :: _ =>
                     match cleanup result with
                     | None => ret result
                     | Some e => raise e
                     end
                 | [] => ret []
                 end) st Hc) as (s1 & _ & E1).
  destruct (lists_run _ _ _ _ _ _
              (fun task_definition_arns =>
                 new_evaluations ;;;
                 for_each task_definition_arns
                   (fun task => taskDefinition_eval fuel client task 3) ;;;
                 for_each (map fst (fleet_clusters f)) (walk_cluster fuel client 3) ;;;
                 result <- get_evaluations ;;
                 match result with
                 | _ :: _ =>
                     match cleanup result with
                     | None => ret result
                     | Some e => raise e
                     end
                 | [] => ret []
                 end) s1 Ht) as (s2 & _ & E2).
  unfold evaluate_periodic. rewrite E1, E2. clear E1 E2.
  erewrite bind_run by reflexivity.
  destruct (Hpass (mkState [] (calls s2))) as (s3 & E3 & M3).
  unfold bind in E3 |- *.
  destruct (for_each (fleet_task_definitions f) _ _) as [[[]|e|] s4];
    try discriminate.
  rewrite E3. unfold get_evaluations. simpl in M3.
  assert (Hlen : List.length (evaluations s3)
                 = List.length (fleet_task_definitions f) +
                   list_sum (map (fun c => 1 + List.length (snd c))
                                 (fleet_clusters f))).
  { rewrite <- length_expected_batch, <- M3. now rewrite length_map. }
  destruct (evaluations s3) as [|e l] eqn:Ee.
  - exists [], s3. auto.
  - rewrite Hclean. exists (e :: l), s3. auto.
Qed.

Lemma occurs_contains (c : ascii) (s : string) :
  PyStr.contains (String c "") s = true -> occurs c s.
Proof. apply contains_char. Qed.

Lemma lists_one_page {A} (fuel : nat) (client : Client) (name : string)
    (response_key : Response -> option (list A)) (kw : kwargs)
    (m : kwargs -> reply) (r : Response) (items : list A) :
  client name = Some m ->
  m kw = Reply r ->
  response_key r = Some items ->
  truthy (NextToken r) = None ->
  lists fuel client name response_key kw items.
Proof.
  intros Hm Hr Hitems Htoken. exists m. split; [assumption|].
  intros st.
  now rewrite (fetch_all_items_one_page fuel client (mkCallable name m)
                 response_key kw r items st Hr Hitems Htoken).
Qed.

Lemma fleet_client_has_tags (fuel : nat) (arn : string) :
  has_tags fuel fleet_client arn.
Proof.
  eexists. eapply lists_one_page; reflexivity.
Qed.

Lemma fleet_client_serves (fuel : nat) : serves fuel fleet_client small_fleet.
Proof.
  split; [eapply lists_one_page; reflexivity|].
  split; [eapply lists_one_page; reflexivity|].
  split.
  - repeat (apply Forall_cons || apply Forall_nil);
      (split; [now apply occurs_contains | apply fleet_client_has_tags]).
  - apply Forall_cons; [|apply Forall_cons; [|apply Forall_nil]].
    + split; [now apply occurs_contains|].
      split; [apply fleet_client_has_tags|].
      split; [eapply lists_one_page; reflexivity|].
      split; [now left | apply Forall_nil].
    + split; [now apply occurs_contains|].
      split; [apply fleet_client_has_tags|].
      split; [eapply lists_one_page; reflexivity|].
      split.
      * right. do 2 eexists. repeat split; reflexivity.
      * repeat (apply Forall_cons || apply Forall_nil);
          intros _; apply fleet_client_has_tags.
Qed.

Lemma batch_follows_the_fleet_witness :
  serves 0 fleet_client small_fleet /\
  exists batch st',
    evaluate_periodic (fun _ => None) 0 fleet_client initial = (Ret batch, st') /\
    map id_type batch = expected_batch small_fleet /\
    List.length batch = 3 + (1 + 0 + (1 + 2 + 0)).
Proof.
  split; [exact (fleet_client_serves 0)|].
  exact (batch_follows_the_fleet (fun _ => None) 0 fleet_client small_fleet
           initial (fleet_client_serves 0) (fun _ => eq_refl)).
Defined.

(* ------------------------------------------------------------------ *)
(** * More on the classifier *)

Lemma match_at_name (bol : bool) (s : string) :
  Re.match_at name_value_regex_filter bol s <> None <->
  exists c post, s = String c post /\ Re.space c = true.
Proof.
  rewrite match_at_iff. unfold name_value_regex_filter.
  cbn [Re.before Re.group Re.after]. split.
  - intros (s1 & s2 & s3 & H1 & H2 & _).
    simpl in H1. destruct H1 as [<-|[]].
    apply in_run_Cls in H2 as (c & -> & Hc).
    exists c, s2. split; [reflexivity | assumption].
  - intros (c & post & -> & Hc).
    exists (String c post), post, post. repeat split.
    + simpl. auto.
    + apply in_run_Cls. exists c. split; [reflexivity | assumption].
    + simpl. auto.
Qed.

Lemma found_name (v : string) :
  found name_value_regex_filter v = true <-> has_whitespace v.
Proof.
  rewrite found_true, found_iff. unfold has_whitespace. split.
  - intros [H|(d & pre & suf & -> & H)];
      apply match_at_name in H as (c & post & -> & Hc).
    + exists "", c, post. split; [reflexivity | assumption].
    + exists (String d pre), c, post. split; [reflexivity | assumption].
  - intros (pre & c & post & -> & Hc). destruct pre as [|d pre].
    + left. apply match_at_name. exists c, post.
      split; [reflexivity | assumption].
    + right. exists d, pre, (String c post). split; [reflexivity|].
      apply match_at_name. exists c, post.
      split; [reflexivity | assumption].
Qed.

Lemma check_tag_name (tag : Tag) :
  PyStr.contains "uai" (PyStr.lower (key tag)) = false ->
  PyStr.contains "env" (PyStr.lower (key tag)) = false ->
  PyStr.contains "Name" (key tag)
    || PyStr.contains "app" (PyStr.lower (key tag)) = true ->
  check_tag tag =
    Pair (key tag) (if found name_value_regex_filter (value tag)
                    then "NON_COMPLIANT" else "COMPLIANT").
Proof.
  intros H1 H2 H3. unfold check_tag. rewrite H1, H2, H3.
  now destruct (found name_value_regex_filter (value tag)).
Qed.

(** X1: a tag whose key has neither uai nor env in it, in any case, but
    has Name (in this case) or app (in any case), is marked COMPLIANT
    exactly when its value has no whitespace character, and
    NON_COMPLIANT exactly when it has one. *)
Theorem name_tag_compliant_iff_no_whitespace
    (tags : list Tag) (i : nat) (tag : Tag) :
  nth_error tags i = Some tag ->
  PyStr.contains "uai" (PyStr.lower (key tag)) = false ->
  PyStr.contains "env" (PyStr.lower (key tag)) = false ->
  PyStr.contains "Name" (key tag)
    || PyStr.contains "app" (PyStr.lower (key tag)) = true ->
  (nth_error (tag_regex_filtering tags) i = Some (Pair (key tag) "COMPLIANT")
   <-> ~ has_whitespace (value tag)) /\
  (nth_error (tag_regex_filtering tags) i = Some (Pair (key tag) "NON_COMPLIANT")
   <-> has_whitespace (value tag)).
Proof.
  intros Hi H1 H2 H3.
  rewrite (nth_error_tag_regex_filtering _ _ _ Hi), (check_tag_name _ H1 H2 H3).
  rewrite <- found_name.
  destruct (found name_value_regex_filter (value tag)); split; split;
    congruence.
Qed.

Lemma name_tag_compliant_iff_no_whitespace_witness :
  nth_error [mkTag "Application" "my shop"] 0 = Some (mkTag "Application" "my shop") /\
  (nth_error (tag_regex_filtering [mkTag "Application" "my shop"]) 0
     = Some (Pair "Application" "NON_COMPLIANT")
   <-> has_whitespace "my shop").
Proof.
  split; [reflexivity|].
  exact (proj2 (name_tag_compliant_iff_no_whitespace
                  [mkTag "Application" "my shop"] 0
                  (mkTag "Application" "my shop")
                  eq_refl eq_refl eq_refl eq_refl)).
Defined.

Lemma check_tag_cases (tag : Tag) :
  (check_tag tag = Str "NO_TAGS" /\ unrecognised (key tag)) \/
  (~ unrecognised (key tag) /\
   (check_tag tag = Pair (key tag) "COMPLIANT" \/
    check_tag tag = Pair (key tag) "NON_COMPLIANT")).
Proof.
  unfold check_tag, unrecognised.
  destruct (PyStr.contains "uai" (PyStr.lower (key tag))) eqn:E1.
  { right. split; [intros (H & _); discriminate|].
    destruct (found _ _); auto. }
  destruct (PyStr.contains "env" (PyStr.lower (key tag))) eqn:E2.
  { right. split; [intros (_ & H & _); discriminate|].
    destruct (found _ _); auto. }
  destruct (PyStr.contains "Name" (key tag)) eqn:E3.
  { right. split; [intros (_ & _ & H & _); discriminate|].
    simpl. destruct (found _ _); auto. }
  destruct (PyStr.contains "app" (PyStr.lower (key tag))) eqn:E4.
  { right. split; [intros (_ & _ & _ & H); discriminate|].
    simpl. destruct (found _ _); auto. }
  left. auto.
Qed.

(** X2: the classifier answers tag by tag, in order: the result is as
    long as the tag list, the result for two lists in a row is the two
    results in a row, and the entry of a tag is the bare text NO_TAGS
    exactly when its key is of no known kind, and otherwise the key of
    the tag with COMPLIANT or NON_COMPLIANT. *)
Theorem classifier_answers_tag_by_tag :
  (forall a b, tag_regex_filtering (a ++ b)
               = tag_regex_filtering a ++ tag_regex_filtering b) /\
  (forall l, List.length (tag_regex_filtering l) = List.length l) /\
  (forall tags i tag,
     nth_error tags i = Some tag ->
     (nth_error (tag_regex_filtering tags) i = Some (Str "NO_TAGS")
      <-> unrecognised (key tag)) /\
     (~ unrecognised (key tag) ->
      nth_error (tag_regex_filtering tags) i = Some (Pair (key tag) "COMPLIANT") \/
      nth_error (tag_regex_filtering tags) i
        = Some (Pair (key tag) "NON_COMPLIANT"))).
Proof.
  split; [|split].
  - intros a b. repeat rewrite tag_regex_filtering_map. apply map_app.
  - intros l. rewrite tag_regex_filtering_map. apply length_map.
  - intros tags i tag Hi.
    rewrite (nth_error_tag_regex_filtering _ _ _ Hi).
    destruct (check_tag_cases tag) as [[E U]|[U [E|E]]]; rewrite E.
    + split; [tauto | intros H; contradiction].
    + split; [split; [discriminate | intros H; contradiction] | auto].
    + split; [split; [discriminate | intros H; contradiction] | auto].
Qed.

Lemma classifier_answers_tag_by_tag_witness :
  nth_error [mkTag "uai" "x"; mkTag "name" "web"] 1 = Some (mkTag "name" "web") /\
  (nth_error (tag_regex_filtering [mkTag "uai" "x"; mkTag "name" "web"]) 1
     = Some (Str "NO_TAGS")
   <-> unrecognised "name").
Proof.
  split; [reflexivity|].
  exact (proj1 (proj2 (proj2 classifier_answers_tag_by_tag)
                  [mkTag "uai" "x"; mkTag "name" "web"] 1
                  (mkTag "name" "web") eq_refl)).
Defined.

Lemma count_compliant_app (a b : list checked) :
  count_compliant (a ++ b) = count_compliant a + count_compliant b.
Proof.
  induction a as [|[k v|s] a IH]; simpl; try rewrite IH; lia.
Qed.

Lemma plain_keys_app (a b : list Tag) :
  plain_keys (a ++ b) <-> plain_keys a /\ plain_keys b.
Proof. apply Forall_app. Qed.

(** X3: when no key has a single quote, the count that the evaluators
    read off the printed list is additive over the tag list, and a tag
    that is not marked COMPLIANT, unrecognised ones included, adds
    nothing to it wherever it stands. *)
Theorem count_is_additive (a b : list Tag) (t : Tag) :
  plain_keys (a ++ t :: b) ->
  compliance_count (tag_regex_filtering (a ++ t :: b))
  = compliance_count (tag_regex_filtering a) +
    compliance_count (tag_regex_filtering [t]) +
    compliance_count (tag_regex_filtering b) /\
  (check_tag t <> Pair (key t) "COMPLIANT" ->
   compliance_count (tag_regex_filtering (a ++ t :: b))
   = compliance_count (tag_regex_filtering (a ++ b))).
Proof.
  intros H.
  assert (Ha : plain_keys a) by (apply plain_keys_app in H; tauto).
  assert (Htb : plain_keys (t :: b)) by (apply plain_keys_app in H; tauto).
  assert (Ht : plain_keys [t]) by (inversion Htb; now repeat constructor).
  assert (Hb : plain_keys b) by now inversion Htb.
  assert (Hab : plain_keys (a ++ b)) by (apply plain_keys_app; tauto).
  repeat rewrite compliance_count_entries by assumption.
  repeat rewrite tag_regex_filtering_map.
  repeat rewrite map_app. cbn [map]. repeat rewrite count_compliant_app.
  change (count_compliant (check_tag t :: map check_tag b))
    with (count_compliant ([check_tag t] ++ map check_tag b)).
  rewrite count_compliant_app. split; [lia|].
  intros Hno.
  assert (E : count_compliant [check_tag t] = 0).
  { destruct (check_tag_cases t) as [[-> _]|[_ [E| ->]]];
      [reflexivity | contradiction | reflexivity]. }
  lia.
Qed.

Lemma count_is_additive_witness :
  plain_keys ([mkTag "uai" "uai1234567"] ++ mkTag "owner" "me" :: [mkTag "env" "prd"]) /\
  compliance_count
    (tag_regex_filtering
       ([mkTag "uai" "uai1234567"] ++ mkTag "owner" "me" :: [mkTag "env" "prd"]))
  = compliance_count (tag_regex_filtering [mkTag "uai" "uai1234567"]) +
    compliance_count (tag_regex_filtering [mkTag "owner" "me"]) +
    compliance_count (tag_regex_filtering [mkTag "env" "prd"]).
Proof.
  assert (H : plain_keys ([mkTag "uai" "uai1234567"] ++
                          mkTag "owner" "me" :: [mkTag "env" "prd"])).
  { repeat constructor; simpl; intros H; decompose [or] H;
      try discriminate; assumption. }
  split; [exact H|].
  exact (proj1 (count_is_additive [mkTag "uai" "uai1234567"]
                  [mkTag "env" "prd"] (mkTag "owner" "me") H)).
Defined.

(** X4: for a cluster with tags whose keys have no single quote, the
    evaluation is COMPLIANT exactly when the number of entries marked
    COMPLIANT equals the minimum: more of them make it NON_COMPLIANT,
    and entries marked NON_COMPLIANT or unrecognised are not looked at. *)
Theorem cluster_verdict_counts_exactly (fuel : nat) (client : Client)
    (arn name : string) (minimum : nat) (t : Tag) (l : list Tag)
    (st st1 : State) :
  plain_keys (t :: l) ->
  fetches_tags fuel client arn st (t :: l) st1 ->
  exists e,
    cluster_eval fuel client arn minimum name st = (Ret tt, push e st1) /\
    (complianceType e = COMPLIANT
     <-> count_compliant (tag_regex_filtering (t :: l)) = minimum) /\
    (complianceType e = NON_COMPLIANT
     <-> count_compliant (tag_regex_filtering (t :: l)) <> minimum) /\
    (minimum < count_compliant (tag_regex_filtering (t :: l)) ->
     complianceType e = NON_COMPLIANT).
Proof.
  intros Hkeys Hf. rewrite (cluster_eval_run _ _ _ _ _ _ _ _ Hf).
  eexists. split; [reflexivity|].
  rewrite <- (compliance_count_entries _ Hkeys).
  unfold tags_evaluation.
  destruct (Nat.eqb_spec (compliance_count (tag_regex_filtering (t :: l)))
                         minimum) as [E|E]; cbn [complianceType];
    repeat split; intros; try congruence; try discriminate; try lia.
Qed.

Lemma cluster_verdict_counts_exactly_witness :
  exists e,
    cluster_eval 0
      (tags_client (mkTag "uai2" "uai7654321" :: three_good_tags))
      cluster1 3 "c1" initial
    = (Ret tt,
       push e (mkState [] [("list_tags_for_resource",
                            [("resourceArn", AStr cluster1)])])) /\
    (complianceType e = COMPLIANT
     <-> count_compliant
           (tag_regex_filtering (mkTag "uai2" "uai7654321" :: three_good_tags))
         = 3) /\
    (complianceType e = NON_COMPLIANT
     <-> count_compliant
           (tag_regex_filtering (mkTag "uai2" "uai7654321" :: three_good_tags))
         <> 3) /\
    (3 < count_compliant
           (tag_regex_filtering (mkTag "uai2" "uai7654321" :: three_good_tags)) ->
     complianceType e = NON_COMPLIANT).
Proof.
  apply (cluster_verdict_counts_exactly 0
           (tags_client (mkTag "uai2" "uai7654321" :: three_good_tags))
           cluster1 "c1" 3).
  - repeat constructor; simpl; intros H; decompose [or] H;
      try discriminate; assumption.
  - eexists. split; reflexivity.
Defined.

(* ------------------------------------------------------------------ *)
(** * More on fetch_all_items *)

Lemma truthy_nonempty (next_token : option string) (t : string) :
  truthy next_token = Some t -> t <> "" /\ next_token = Some t.
Proof.
  destruct next_token as [[|c s]|]; simpl; intros [= <-].
  split; [discriminate | reflexivity].
Qed.

Lemma call_run (f : callable) (kw : kwargs) (st : State) :
  call f kw st
  = (match body f kw with Reply r => Ret r | Fails e => Raise e end,
     mkState (evaluations st) (calls st ++ [(method_name f, kw)])).
Proof. unfold call. now destruct (body f kw). Qed.

Lemma fetch_loop_calls {A} (fuel : nat) (client : Client)
    (response_key : Response -> option (list A)) items next_token st :
  exists tokens,
    calls (snd (fetch_loop fuel client response_key items next_token st))
    = calls st ++ map continuation_call tokens /\
    Forall (fun t => t <> "") tokens.
Proof.
  revert items next_token st.
  induction fuel as [|fuel IH]; intros items next_token st; simpl;
    destruct (truthy next_token) as [t|] eqn:Et;
    try (exists []; simpl; rewrite app_nil_r; split; [reflexivity | constructor]).
  apply truthy_nonempty in Et as [Ht _].
  unfold getattr. destruct (client "method") as [m|];
    [|exists []; simpl; rewrite app_nil_r; split; [reflexivity | constructor]].
  erewrite bind_run by reflexivity.
  unfold bind at 1. rewrite call_run. cbn [body method_name].
  destruct (m [("NextToken", AStr t)]) as [r|e];
    [|exists [t]; split; [reflexivity | now repeat constructor]].
  destruct (response_key r) as [more|];
    [|exists [t]; split; [reflexivity | now repeat constructor]].
  erewrite bind_run by reflexivity.
  destruct (IH (items ++ more) (NextToken r)
               (mkState (evaluations st)
                        (calls st ++ [("method", [("NextToken", AStr t)])])))
    as (tokens & E & Hn).
  exists (t :: tokens). split; [|now constructor].
  etransitivity; [exact E|].
  cbn [calls map]. rewrite <- app_assoc. reflexivity.
Qed.

(** X5: whatever the outcome, [fetch_all_items] calls the listing method
    it was given exactly once, first and with the arguments it was
    given; every later call goes to the attribute [method] of the client
    with a non-empty token as its only argument, so the arguments of the
    listing are not passed on. *)
Theorem fetch_all_items_calls {A} (fuel : nat) (client : Client)
    (method : callable) (response_key : Response -> option (list A))
    (kw : kwargs) (st : State) :
  exists tokens,
    calls (snd (fetch_all_items fuel client method response_key kw st))
    = calls st ++ (method_name method, kw) :: map continuation_call tokens /\
    Forall (fun t => t <> "") tokens.
Proof.
  unfold fetch_all_items.
  assert (Hcall : (match kw with
                   | _ :: _ => call method kw
                   | [] => call method []
                   end) st = call method kw st) by now destruct kw.
  unfold bind at 1. rewrite Hcall, call_run.
  destruct (body method kw) as [r|e];
    [|exists []; split; [reflexivity | constructor]].
  destruct (response_key r) as [items|];
    [|exists []; split; [reflexivity | constructor]].
  erewrite bind_run by reflexivity.
  destruct (fetch_loop_calls fuel client response_key items (NextToken r)
              (mkState (evaluations st) (calls st ++ [(method_name method, kw)])))
    as (tokens & E & Hn).
  exists tokens. split; [|assumption].
  etransitivity; [exact E|].
  cbn [calls]. rewrite <- app_assoc. reflexivity.
Qed.

(** X6: a listing call that fails makes [fetch_all_items] raise the same
    exception, and a response without the entry asked for makes it raise
    KeyError; in both cases after that one call and without touching the
    evaluations. *)
Theorem fetch_all_items_first_call_errors {A} (fuel : nat) (client : Client)
    (method : callable) (response_key : Response -> option (list A))
    (kw : kwargs) (st : State) :
  (forall e, body method kw = Fails e ->
     fetch_all_items fuel client method response_key kw st
     = (Raise e, mkState (evaluations st)
                         (calls st ++ [(method_name method, kw)]))) /\
  (forall r, body method kw = Reply r -> response_key r = None ->
     fetch_all_items fuel client method response_key kw st
     = (Raise KeyError, mkState (evaluations st)
                                (calls st ++ [(method_name method, kw)]))).
Proof.
  assert (Hcall : (match kw with
                   | _ :: _ => call method kw
                   | [] => call method []
                   end) st = call method kw st) by now destruct kw.
  split.
  - intros e He. unfold fetch_all_items, bind. rewrite Hcall, call_run, He.
    reflexivity.
  - intros r Hr Hk. unfold fetch_all_items, bind.
    rewrite Hcall, call_run, Hr, Hk. reflexivity.
Qed.

Lemma fetch_all_items_first_call_errors_witness :
  (exists f,
     refused_client "list_clusters" = Some f /\
     f [("maxResults", AInt 100)] = Fails (ClientError "AccessDeniedException") /\
     fetch_all_items 3 refused_client (mkCallable "list_clusters" f) clusterArns
                     [("maxResults", AInt 100)] initial
     = (Raise (ClientError "AccessDeniedException"),
        mkState [] [("list_clusters", [("maxResults", AInt 100)])])) /\
  (exists f,
     keyless_client "list_clusters" = Some f /\
     f [("maxResults", AInt 100)] = Reply empty_response /\
     clusterArns empty_response = None /\
     fetch_all_items 3 keyless_client (mkCallable "list_clusters" f) clusterArns
                     [("maxResults", AInt 100)] initial
     = (Raise KeyError,
        mkState [] [("list_clusters", [("maxResults", AInt 100)])])).
Proof.
  split; eexists; (split; [reflexivity|]); (split; [reflexivity|]).
  - exact (proj1 (fetch_all_items_first_call_errors
                    3 refused_client (mkCallable "list_clusters" _) clusterArns
                    [("maxResults", AInt 100)] initial)
             (ClientError "AccessDeniedException") eq_refl).
  - split; [reflexivity|].
    exact (proj2 (fetch_all_items_first_call_errors
                    3 keyless_client (mkCallable "list_clusters" _) clusterArns
                    [("maxResults", AInt 100)] initial)
             empty_response eq_refl eq_refl).
Defined.

Lemma fetch_loop_follows {A} (client : Client) (m : kwargs -> reply)
    (response_key : Response -> option (list A))
    (pages : list (string * list A)) :
  client "method" = Some m ->
  forall fuel items next_token st,
    follows m response_key next_token pages ->
    List.length pages <= fuel ->
    fetch_loop fuel client response_key items next_token st
    = (Ret (items ++ concat (map snd pages)),
       mkState (evaluations st)
               (calls st ++ map continuation_call (map fst pages))).
Proof.
  intros Hm. induction pages as [|[t page] pages IH];
    intros fuel items next_token st Hf Hlen.
  - simpl in Hf. destruct fuel; simpl; rewrite Hf; simpl;
      repeat rewrite app_nil_r; now destruct st.
  - destruct Hf as (Ht & r & Hr & Hk & Hrest).
    destruct fuel as [|fuel]; [simpl in Hlen; lia|].
    simpl. rewrite Ht. unfold getattr. rewrite Hm.
    erewrite bind_run by reflexivity.
    unfold bind at 1. rewrite call_run. cbn [body method_name].
    rewrite Hr, Hk. erewrite bind_run by reflexivity.
    rewrite (IH fuel _ _ _ Hrest) by (simpl in Hlen; lia).
    cbn [evaluations calls map fst snd concat].
    now repeat rewrite <- app_assoc.
Qed.

(** X7: on a client that has an attribute [method] (a mock has), the
    loop follows the pages that this attribute serves: with enough fuel
    [fetch_all_items] returns the items of the first response followed
    by those of each page in turn, after one call of the listing method
    and one call of [client.method] for each page. *)
Theorem fetch_all_items_follows_client_method {A} (fuel : nat)
    (client : Client) (method : callable) (m : kwargs -> reply)
    (response_key : Response -> option (list A)) (kw : kwargs)
    (r : Response) (items : list A) (pages : list (string * list A))
    (st : State) :
  client "method" = Some m ->
  body method kw = Reply r ->
  response_key r = Some items ->
  follows m response_key (NextToken r) pages ->
  List.length pages <= fuel ->
  fetch_all_items fuel client method response_key kw st
  = (Ret (items ++ concat (map snd pages)),
     mkState (evaluations st)
             (calls st ++ (method_name method, kw) ::
                          map continuation_call (map fst pages))).
Proof.
  intros Hm Hr Hk Hf Hlen. unfold fetch_all_items.
  assert (Hcall : (match kw with
                   | _ :: _ => call method kw
                   | [] => call method []
                   end) st = call method kw st) by now destruct kw.
  unfold bind at 1. rewrite Hcall, call_run, Hr, Hk.
  erewrite bind_run by reflexivity.
  rewrite (fetch_loop_follows client m response_key pages Hm _ _ _ _ Hf Hlen).
  cbn [evaluations calls]. rewrite <- app_assoc. reflexivity.
Qed.

Lemma fetch_all_items_follows_client_method_witness :
  exists f m,
    paged_client "list_clusters" = Some f /\
    paged_client "method" = Some m /\
    follows m clusterArns (Some "t1")
            [("t1", ["cluster/b"; "cluster/c"]); ("t2", ["cluster/d"])] /\
    fetch_all_items 2 paged_client (mkCallable "list_clusters" f) clusterArns
                    [("maxResults", AInt 100)] initial
    = (Ret ["cluster/a"; "cluster/b"; "cluster/c"; "cluster/d"],
       mkState []
         [("list_clusters", [("maxResults", AInt 100)]);
          ("method", [("NextToken", AStr "t1")]);
          ("method", [("NextToken", AStr "t2")])]).
Proof.
  do 2 eexists. split; [reflexivity|]. split; [reflexivity|].
  assert (H : follows
                (fun kw =>
                   match kwarg_str "NextToken" kw with
                   | Some t =>
                       if String.eqb t "t1"
                       then Reply (mkResponse (Some ["cluster/b"; "cluster/c"])
                                              None None None None (Some "t2"))
                       else Reply (mkResponse (Some ["cluster/d"])
                                              None None None None None)
                   | None => Fails (ClientError "NextToken is required")
                   end)
                clusterArns (Some "t1")
                [("t1", ["cluster/b"; "cluster/c"]); ("t2", ["cluster/d"])]).
  { simpl. split; [reflexivity|]. eexists. split; [reflexivity|].
    split; [reflexivity|]. split; [reflexivity|].
    eexists. split; [reflexivity|]. split; reflexivity. }
  split; [exact H|].
  exact (fetch_all_items_follows_client_method
           2 paged_client (mkCallable "list_clusters" _) _ clusterArns
           [("maxResults", AInt 100)]
           (mkResponse (Some ["cluster/a"]) None None None None (Some "t1"))
           ["cluster/a"]
           [("t1", ["cluster/b"; "cluster/c"]); ("t2", ["cluster/d"])] initial
           eq_refl eq_refl eq_refl H (le_n 2)).
Defined.

Lemma fetch_loop_endless {A} (client : Client) (m : kwargs -> reply)
    (response_key : Response -> option (list A)) :
  client "method" = Some m ->
  (forall kw, exists r items t,
     m kw = Reply r /\ response_key r = Some items /\
     truthy (NextToken r) = Some t) ->
  forall fuel items next_token t st,
    truthy next_token = Some t ->
    fst (fetch_loop fuel client response_key items next_token st) = OutOfFuel.
Proof.
  intros Hm Hall. induction fuel as [|fuel IH];
    intros items next_token t st Ht; simpl; rewrite Ht; [reflexivity|].
  unfold getattr. rewrite Hm. erewrite bind_run by reflexivity.
  destruct (Hall [("NextToken", AStr t)]) as (r & more & t' & Hr & Hk & Ht').
  unfold bind at 1. rewrite call_run. cbn [body]. rewrite Hr, Hk.
  erewrite bind_run by reflexivity.
  exact (IH _ _ t' _ Ht').
Qed.

(** X8: when every response of [client.method] has the entry asked for
    and a non-empty token, and the first response of the listing has a
    token too, the loop never ends: whatever the fuel, [fetch_all_items]
    neither returns nor raises. *)
Theorem fetch_all_items_never_ends {A} (client : Client) (method : callable)
    (m : kwargs -> reply) (response_key : Response -> option (list A))
    (kw : kwargs) (r : Response) (items : list A) (t : string) :
  client "method" = Some m ->
  (forall kw', exists r' items' t',
     m kw' = Reply r' /\ response_key r' = Some items' /\
     truthy (NextToken r') = Some t') ->
  body method kw = Reply r ->
  response_key r = Some items ->
  truthy (NextToken r) = Some t ->
  forall fuel st,
    fst (fetch_all_items fuel client method response_key kw st) = OutOfFuel.
Proof.
  intros Hm Hall Hr Hk Ht fuel st. unfold fetch_all_items.
  assert (Hcall : (match kw with
                   | _ :: _ => call method kw
                   | [] => call method []
                   end) st = call method kw st) by now destruct kw.
  unfold bind at 1. rewrite Hcall, call_run, Hr, Hk.
  erewrite bind_run by reflexivity.
  exact (fetch_loop_endless client m response_key Hm Hall fuel _ _ t _ Ht).
Qed.

Lemma fetch_all_items_never_ends_witness :
  exists f,
    endless_client "list_clusters" = Some f /\
    endless_client "method" = Some f /\
    forall fuel,
      fst (fetch_all_items fuel endless_client (mkCallable "list_clusters" f)
                           clusterArns [("maxResults", AInt 100)] initial)
      = OutOfFuel.
Proof.
  eexists. split; [reflexivity|]. split; [reflexivity|].
  intros fuel.
  exact (fetch_all_items_never_ends endless_client
           (mkCallable "list_clusters" _) _ clusterArns
           [("maxResults", AInt 100)]
           (mkResponse (Some ["cluster/a"]) None None None None (Some "again"))
           ["cluster/a"] "again" eq_refl
           (fun _ => ex_intro _ _ (ex_intro _ _ (ex_intro _ _
                       (conj eq_refl (conj eq_refl eq_refl)))))
           eq_refl eq_refl eq_refl fuel initial).
Defined.

(* ------------------------------------------------------------------ *)
(** * More on the evaluators *)

Lemma appends_after_keeps {A} (id type : string) (p : M A) (k : A -> M unit) :
  keeps p -> (forall a, appends_at_most_one id type (k a)) ->
  appends_at_most_one id type (bind p k).
Proof.
  intros Hp Hk st. unfold bind. specialize (Hp st).
  destruct (p st) as [[a|e|] st1]; simpl in Hp |- *.
  - rewrite <- Hp. apply Hk.
  - right. split; [discriminate | assumption].
  - right. split; [discriminate | assumption].
Qed.

Lemma appends_annotated (c : ComplianceType) (id type template : string)
    (args : list string) :
  appends_at_most_one id type
    (annotation <- annotate template args ;;
     append_evaluation (mkEvaluation c id type annotation)).
Proof.
  intros st. unfold annotate, fmt, bind.
  destruct (PyStr.format template args) as [s|]; simpl.
  - left. split; [reflexivity|]. eexists. repeat split.
  - right. split; [discriminate | reflexivity].
Qed.

Lemma appends_after_fetch_tags (fuel : nat) (client : Client) (arn : string)
    (k : list Tag -> M unit) (id type : string) :
  (forall l, appends_at_most_one id type (k l)) ->
  appends_at_most_one id type
    (list_tags <- getattr client "list_tags_for_resource" ;;
     l <- fetch_all_items fuel client list_tags tags
            [("resourceArn", AStr arn)] ;;
     k l).
Proof.
  intros Hk.
  apply appends_after_keeps; [apply keeps_getattr|]; intros f.
  apply appends_after_keeps; [apply keeps_fetch_all_items|]. exact Hk.
Qed.

(** X9: whatever the client answers, each evaluator leaves the earlier
    evaluations as they are and appends exactly one evaluation, for its
    own resource and type, when it returns, and none when it raises or
    does not end. *)
Theorem evaluators_append_one_or_nothing (fuel : nat) (client : Client)
    (arn name : string) (minimum : nat) :
  appends_at_most_one arn "AWS::ECS::TaskDefinition"
    (taskDefinition_eval fuel client arn minimum) /\
  appends_at_most_one arn "AWS::ECS::Service"
    (service_eval fuel client arn minimum name) /\
  appends_at_most_one arn "AWS::ECS::Cluster"
    (cluster_eval fuel client arn minimum name).
Proof.
  split; [|split].
  - unfold taskDefinition_eval.
    apply appends_after_keeps; [apply keeps_index0|]; intros n.
    apply appends_after_fetch_tags. intros l.
    destruct (List.length l =? 0)%nat; [apply appends_annotated|].
    destruct (_ =? _)%nat; apply appends_annotated.
  - unfold service_eval.
    destruct (1 <? separators arn)%nat; [|apply appends_annotated].
    apply appends_after_fetch_tags. intros l.
    destruct (List.length l =? 0)%nat; [apply appends_annotated|].
    destruct (_ =? _)%nat; apply appends_annotated.
  - unfold cluster_eval.
    apply appends_after_fetch_tags. intros l.
    destruct (List.length l =? 0)%nat; [apply appends_annotated|].
    destruct (_ =? _)%nat; apply appends_annotated.
Qed.

(* ------------------------------------------------------------------ *)
(** * More on evaluate_periodic *)

Lemma keeps_all_keeps {A} (P : Evaluation -> Prop) (m : M A) :
  keeps m -> keeps_all P m.
Proof. intros H st a st' HP E. now rewrite (keeps_run _ _ _ _ H E). Qed.

Lemma keeps_all_bind {A B} (P : Evaluation -> Prop) (m : M A) (k : A -> M B) :
  keeps_all P m -> (forall a, keeps_all P (k a)) -> keeps_all P (bind m k).
Proof.
  intros Hm Hk st b st' HP E.
  apply bind_inv in E as (a & st1 & E1 & E2).
  eapply Hk; [|exact E2]. eapply Hm; eassumption.
Qed.

Lemma keeps_all_for_each {A} (P : Evaluation -> Prop) (l : list A)
    (f : A -> M unit) :
  (forall x, keeps_all P (f x)) -> keeps_all P (for_each l f).
Proof.
  intros Hf. induction l as [|x l IH]; simpl.
  - apply keeps_all_keeps, keeps_ret.
  - apply keeps_all_bind; [apply Hf | intros _; apply IH].
Qed.

Lemma well_formed_tags_evaluation (c : ComplianceType) (id type name : string)
    (minimum : nat) (l : list Tag) :
  In type ["AWS::ECS::TaskDefinition"; "AWS::ECS::Cluster"; "AWS::ECS::Service"] ->
  c <> NOT_APPLICABLE ->
  (c = COMPLIANT -> type = "AWS::ECS::Cluster") ->
  well_formed_verdict (tags_evaluation c id type name minimum l).
Proof.
  intros Ht Hc Hcl. unfold tags_evaluation, well_formed_verdict.
  destruct l as [|t l]; [|destruct (_ =? _)%nat]; cbn [resourceType complianceType];
    repeat split; try assumption; try discriminate.
Qed.

Lemma well_formed_push (e : Evaluation) (st st1 : State) :
  evaluations st1 = evaluations st ->
  Forall well_formed_verdict (evaluations st) ->
  well_formed_verdict e ->
  Forall well_formed_verdict (evaluations (push e st1)).
Proof.
  intros E H He. simpl. rewrite E. apply Forall_app. split; [assumption|].
  now constructor.
Qed.

Lemma well_formed_taskDefinition_eval fuel client arn minimum :
  keeps_all well_formed_verdict (taskDefinition_eval fuel client arn minimum).
Proof.
  intros st [] st' HP H.
  apply taskDefinition_eval_inv in H as (n & more & l & st1 & _ & Hf & ->).
  apply (well_formed_push _ st); [exact (fetches_tags_keeps _ _ _ _ _ _ Hf) | assumption |].
  apply well_formed_tags_evaluation; simpl; auto; discriminate.
Qed.

Lemma well_formed_service_eval fuel client arn minimum name :
  keeps_all well_formed_verdict (service_eval fuel client arn minimum name).
Proof.
  intros st [] st' HP H.
  apply service_eval_inv in H as [(_ & ->)|(_ & l & st1 & Hf & ->)].
  - apply (well_formed_push _ st); [reflexivity | assumption |].
    unfold well_formed_verdict; simpl. repeat split; auto; discriminate.
  - apply (well_formed_push _ st); [exact (fetches_tags_keeps _ _ _ _ _ _ Hf) | assumption |].
    apply well_formed_tags_evaluation; simpl; auto; discriminate.
Qed.

Lemma well_formed_cluster_eval fuel client arn minimum name :
  keeps_all well_formed_verdict (cluster_eval fuel client arn minimum name).
Proof.
  intros st [] st' HP H.
  apply cluster_eval_inv in H as (l & st1 & Hf & ->).
  apply (well_formed_push _ st); [exact (fetches_tags_keeps _ _ _ _ _ _ Hf) | assumption |].
  apply well_formed_tags_evaluation; simpl; auto; discriminate.
Qed.

Lemma well_formed_walk_cluster fuel client minimum cluster :
  keeps_all well_formed_verdict (walk_cluster fuel client minimum cluster).
Proof.
  unfold walk_cluster.
  apply keeps_all_bind; [apply keeps_all_keeps, keeps_index0|]; intros n.
  apply keeps_all_bind; [apply well_formed_cluster_eval|]; intros _.
  apply keeps_all_bind; [apply keeps_all_keeps, keeps_getattr|]; intros f.
  apply keeps_all_bind; [apply keeps_all_keeps, keeps_fetch_all_items|]; intros l.
  destruct (0 <? List.length l)%nat; [|apply keeps_all_keeps, keeps_ret].
  apply keeps_all_bind; [apply keeps_all_keeps, keeps_getattr|]; intros d.
  apply keeps_all_bind; [apply keeps_all_keeps, keeps_call|]; intros r.
  apply keeps_all_bind; [apply keeps_all_keeps, keeps_subscript|]; intros s.
  apply keeps_all_for_each. intros x. apply well_formed_service_eval.
Qed.

(** X10: in every batch that [evaluate_periodic] returns, each
    evaluation has one of the three resource types and is COMPLIANT or
    NON_COMPLIANT, and only evaluations of clusters are COMPLIANT: task
    definitions and services are never reported COMPLIANT. *)
Theorem only_clusters_are_compliant cleanup (fuel : nat) (client : Client)
    (st : State) (batch : list Evaluation) (st' : State) :
  evaluate_periodic cleanup fuel client st = (Ret batch, st') ->
  Forall well_formed_verdict batch.
Proof.
  unfold evaluate_periodic. intros H.
  apply bind_inv in H as (f1 & s1 & _ & H).
  apply bind_inv in H as (clusters & s2 & _ & H).
  apply bind_inv in H as (f2 & s3 & _ & H).
  apply bind_inv in H as (tasks & s4 & _ & H).
  apply bind_inv in H as ([] & s5 & H5 & H).
  apply bind_inv in H as ([] & s6 & H6 & H).
  apply bind_inv in H as ([] & s7 & H7 & H).
  apply bind_inv in H as (result & s8 & H8 & H).
  assert (Hb : Forall well_formed_verdict (evaluations s7)).
  { apply (keeps_all_for_each well_formed_verdict clusters _
             (well_formed_walk_cluster fuel client 3) s6 tt s7); [|exact H7].
    apply (keeps_all_for_each well_formed_verdict tasks _
             (fun t => well_formed_taskDefinition_eval fuel client t 3)
             s5 tt s6); [|exact H6].
    unfold new_evaluations in H5. injection H5 as <-. constructor. }
  unfold get_evaluations in H8. injection H8 as <- <-.
  destruct (evaluations s7) as [|e l] eqn:E.
  - injection H as <- _. constructor.
  - destruct (cleanup (e :: l)); [discriminate|].
    injection H as <- _. assumption.
Qed.

Lemma only_clusters_are_compliant_witness :
  evaluate_periodic (fun _ => None) 0 tagged_client initial
  = (Ret [mkEvaluation NON_COMPLIANT task1 "AWS::ECS::TaskDefinition"
            "Tags are COMPLIANT on ECS Resource (users:1)";
          mkEvaluation COMPLIANT cluster1 "AWS::ECS::Cluster"
            "Tags are COMPLIANT on ECS Resource (c1)"],
     mkState
       [mkEvaluation NON_COMPLIANT task1 "AWS::ECS::TaskDefinition"
          "Tags are COMPLIANT on ECS Resource (users:1)";
        mkEvaluation COMPLIANT cluster1 "AWS::ECS::Cluster"
          "Tags are COMPLIANT on ECS Resource (c1)"]
       [("list_clusters", [("maxResults", AInt 100)]);
        ("list_task_definitions", [("maxResults", AInt 100)]);
        ("list_tags_for_resource", [("resourceArn", AStr task1)]);
        ("list_tags_for_resource", [("resourceArn", AStr cluster1)]);
        ("list_services",
         [("cluster", AStr cluster1); ("maxResults", AInt 100)])]) /\
  Forall well_formed_verdict
    [mkEvaluation NON_COMPLIANT task1 "AWS::ECS::TaskDefinition"
       "Tags are COMPLIANT on ECS Resource (users:1)";
     mkEvaluation COMPLIANT cluster1 "AWS::ECS::Cluster"
       "Tags are COMPLIANT on ECS Resource (c1)"].
Proof.
  refine ((fun H => conj H
             (only_clusters_are_compliant (fun _ => None) 0 tagged_client
                                          initial _ _ H)) _).
  reflexivity.
Defined.

(** X11: when both listings are empty, the pass returns the empty batch
    and the reporting step is not consulted: the result is the same
    whether that step would return or raise. *)
Theorem empty_fleet_empty_batch cleanup (fuel : nat) (client : Client)
    (st : State) :
  lists fuel client "list_clusters" clusterArns [("maxResults", AInt 100)] [] ->
  lists fuel client "list_task_definitions" taskDefinitionArns
        [("maxResults", AInt 100)] [] ->
  fst (evaluate_periodic cleanup fuel client st) = Ret [].
Proof.
  intros Hc Ht. unfold evaluate_periodic.
  destruct (lists_run _ _ _ _ _ _
              (fun list_clusters =>
                 list_task_definitions <- getattr client "list_task_definitions" ;;
                 task_definition_arns <-
                   fetch_all_items fuel client list_task_definitions
                                   taskDefinitionArns [("maxResults", AInt 100)] ;;
                 new_evaluations ;;;
                 for_each task_definition_arns
                   (fun task => taskDefinition_eval fuel client task 3) ;;;
                 for_each list_clusters (walk_cluster fuel client 3) ;;;
                 result <- get_evaluations ;;
                 match result with
                 | _ :: _ =>
                     match cleanup result with
                     | None => ret result
                     | Some e => raise e
                     end
                 | [] => ret []
                 end) st Hc) as (s1 & _ & ->).
  destruct (lists_run _ _ _ _ _ _
              (fun task_definition_arns =>
                 new_evaluations ;;;
                 for_each task_definition_arns
                   (fun task => taskDefinition_eval fuel client task 3) ;;;
                 for_each [] (walk_cluster fuel client 3) ;;;
                 result <- get_evaluations ;;
                 match result with
                 | _ :: _ =>
                     match cleanup result with
                     | None => ret result
                     | Some e => raise e
                     end
                 | [] => ret []
                 end) s1 Ht) as (s2 & _ & ->).
  reflexivity.
Qed.

Lemma empty_fleet_empty_batch_witness :
  lists 0 bare_client "list_clusters" clusterArns [("maxResults", AInt 100)] [] /\
  lists 0 bare_client "list_task_definitions" taskDefinitionArns
        [("maxResults", AInt 100)] [] /\
  fst (evaluate_periodic (fun _ => Some (ClientError "not reached")) 0
                         bare_client initial) = Ret [].
Proof.
  assert (Hc : lists 0 bare_client "list_clusters" clusterArns
                     [("maxResults", AInt 100)] []).
  { eapply lists_one_page; reflexivity. }
  assert (Ht : lists 0 bare_client "list_task_definitions" taskDefinitionArns
                     [("maxResults", AInt 100)] []).
  { eapply lists_one_page; reflexivity. }
  split; [exact Hc|]. split; [exact Ht|].
  exact (empty_fleet_empty_batch (fun _ => Some (ClientError "not reached")) 0
           bare_client initial Hc Ht).
Defined.

(** What a pass over a fleet returns, whatever the reporting step does. *)
Lemma pass_result cleanup (fuel : nat) (client : Client) (f : fleet) (st : State) :
  serves fuel client f ->
  exists batch st',
    map id_type batch = expected_batch f /\
    evaluate_periodic cleanup fuel client st
    = (match batch with
       | [] => Ret []
       | _ :: _ => match cleanup batch with
                   | None => Ret batch
                   | Some e => Raise e
                   end
       end, st').
Proof.
  intros (Hc & Ht & Htasks & Hclusters).
  assert (Hpass :
    emits (for_each (fleet_task_definitions f)
                    (fun task => taskDefinition_eval fuel client task 3) ;;;
           for_each (map fst (fleet_clusters f)) (walk_cluster fuel client 3))
          (expected_batch f)).
  { apply emits_seq.
    - rewrite <- flat_map_singleton. apply emits_for_each.
      eapply Forall_impl; [|exact Htasks].
      intros task [H1 H2]. now apply emits_taskDefinition_eval.
    - now apply emits_clusters. }
  destruct (lists_run _ _ _ _ _ _
              (fun list_clusters =>
                 list_task_definitions <- getattr client "list_task_definitions" ;;
                 task_definition_arns <-
                   fetch_all_items fuel client list_task_definitions
                                   taskDefinitionArns [("maxResults", AInt 100)] ;;
                 new_evaluations ;;;
                 for_each task_definition_arns
                   (fun task => taskDefinition_eval fuel client task 3) ;;;
                 for_each list_clusters (walk_cluster fuel client 3) ;;;
                 result <- get_evaluations ;;
                 match result with
                 | _ :: _ =>
                     match cleanup result with
                     | None => ret result
                     | Some e => raise e
                     end
                 | [] => ret []
                 end) st Hc) as (s1 & _ & E1).
  destruct (lists_run _ _ _ _ _ _
              (fun task_definition_arns =>
                 new_evaluations ;;;
                 for_each task_definition_arns
                   (fun task => taskDefinition_eval fuel client task 3) ;;;
                 for_each (map fst (fleet_clusters f)) (walk_cluster fuel client 3) ;;;
                 result <- get_evaluations ;;
                 match result with
                 | _ :: _ =>
                     match cleanup result with
                     | None => ret result
                     | Some e => raise e
                     end
                 | [] => ret []
                 end) s1 Ht) as (s2 & _ & E2).
  unfold evaluate_periodic. rewrite E1, E2. clear E1 E2.
  erewrite bind_run by reflexivity.
  destruct (Hpass (mkState [] (calls s2))) as (s3 & E3 & M3).
  unfold bind in E3 |- *.
  destruct (for_each (fleet_task_definitions f) _ _) as [[[]|e|] s4];
    try discriminate.
  rewrite E3. unfold get_evaluations. simpl in M3.
  exists (evaluations s3), s3. split; [assumption|].
  destruct (evaluations s3) as [|e l]; [reflexivity|].
  now destruct (cleanup (e :: l)).
Qed.

(** X12: for a fleet with at least one task definition or cluster whose
    collaborators answer, a reporting step that raises makes the pass
    raise the same exception instead of returning the batch. *)
Theorem reporting_failure_aborts_the_pass cleanup (fuel : nat)
    (client : Client) (f : fleet) (e : exn) (st : State) :
  serves fuel client f ->
  expected_batch f <> [] ->
  (forall batch, cleanup batch = Some e) ->
  fst (evaluate_periodic cleanup fuel client st) = Raise e.
Proof.
  intros Hs Hne Hclean.
  destruct (pass_result cleanup fuel client f st Hs) as (batch & st' & Hm & ->).
  destruct batch as [|b batch]; [simpl in Hm; congruence|].
  now rewrite Hclean.
Qed.

Lemma reporting_failure_aborts_the_pass_witness :
  serves 0 fleet_client small_fleet /\
  expected_batch small_fleet <> [] /\
  fst (evaluate_periodic (fun _ => Some (ClientError "ThrottlingException")) 0
                         fleet_client initial)
  = Raise (ClientError "ThrottlingException").
Proof.
  assert (Hne : expected_batch small_fleet <> []) by discriminate.
  split; [exact (fleet_client_serves 0)|]. split; [exact Hne|].
  exact (reporting_failure_aborts_the_pass
           (fun _ => Some (ClientError "ThrottlingException")) 0 fleet_client
           small_fleet (ClientError "ThrottlingException") initial
           (fleet_client_serves 0) Hne (fun _ => eq_refl)).
Defined.

(** X13: the clusters are listed first.  Without a [list_clusters]
    method the pass raises AttributeError before any call; when that
    call fails the pass raises its exception after this one call; in
    both cases nothing else is asked of the client and no evaluation is
    made. *)
Theorem cluster_listing_failure_aborts_the_pass cleanup (fuel : nat)
    (client : Client) (st : State) :
  (client "list_clusters" = None ->
   evaluate_periodic cleanup fuel client st
   = (Raise (AttributeError "list_clusters"), st)) /\
  (forall m e,
     client "list_clusters" = Some m ->
     m [("maxResults", AInt 100)] = Fails e ->
     evaluate_periodic cleanup fuel client st
     = (Raise e, mkState (evaluations st)
                         (calls st ++ [("list_clusters",
                                        [("maxResults", AInt 100)])]))).
Proof.
  split.
  - intros H. unfold evaluate_periodic, getattr. rewrite H. reflexivity.
  - intros m e Hm He. unfold evaluate_periodic, getattr. rewrite Hm.
    erewrite bind_run by reflexivity.
    apply bind_raise. unfold fetch_all_items.
    apply bind_raise. rewrite call_run. cbn [body method_name]. now rewrite He.
Qed.

Lemma cluster_listing_failure_aborts_the_pass_witness :
  evaluate_periodic (fun _ => None) 0 refused_client initial
  = (Raise (ClientError "AccessDeniedException"),
     mkState [] [("list_clusters", [("maxResults", AInt 100)])]).
Proof.
  exact (proj2 (cluster_listing_failure_aborts_the_pass
                  (fun _ => None) 0 refused_client initial)
           (fun _ => Fails (ClientError "AccessDeniedException"))
           (ClientError "AccessDeniedException") eq_refl eq_refl).
Defined.

(** X14: on a client without an attribute [method], a first page of
    clusters that carries a token makes the whole pass raise
    AttributeError after that one call: a fleet whose clusters do not
    fit one page is not evaluated at all. *)
Theorem truncated_cluster_listing_aborts_the_pass cleanup (fuel : nat)
    (client : Client) (m : kwargs -> reply) (r : Response)
    (items : list string) (t : string) (st : State) :
  client "method" = None ->
  client "list_clusters" = Some m ->
  m [("maxResults", AInt 100)] = Reply r ->
  clusterArns r = Some items ->
  truthy (NextToken r) = Some t ->
  evaluate_periodic cleanup (S fuel) client st
  = (Raise (AttributeError "method"),
     mkState (evaluations st)
             (calls st ++ [("list_clusters", [("maxResults", AInt 100)])])).
Proof.
  intros Hno Hm Hr Hk Ht. unfold evaluate_periodic, getattr. rewrite Hm.
  erewrite bind_run by reflexivity.
  apply bind_raise. unfold fetch_all_items.
  unfold bind at 1. rewrite call_run. cbn [body method_name]. rewrite Hr, Hk.
  erewrite bind_run by reflexivity.
  simpl. rewrite Ht. unfold getattr. rewrite Hno. reflexivity.
Qed.

Lemma truncated_cluster_listing_aborts_the_pass_witness :
  two_page_client "method" = None /\
  evaluate_periodic (fun _ => None) 1 two_page_client initial
  = (Raise (AttributeError "method"),
     mkState [] [("list_clusters", [("maxResults", AInt 100)])]).
Proof.
  split; [reflexivity|].
  exact (truncated_cluster_listing_aborts_the_pass
           (fun _ => None) 0 two_page_client
           (fun kw =>
              match kwarg_str "NextToken" kw with
              | None =>
                  Reply (mkResponse (Some ["cluster/a"]) None None None None
                                    (Some "t1"))
              | Some _ =>
                  Reply (mkResponse (Some ["cluster/b"]) None None None None
                                    None)
              end)
           (mkResponse (Some ["cluster/a"]) None None None None (Some "t1"))
           ["cluster/a"] "t1" initial
           eq_refl eq_refl eq_refl eq_refl eq_refl).
Defined.

(** X15: the services of a cluster are evaluated as [describe_services]
    returns them: the listed identifiers only decide whether it is asked
    and are passed to it, and the evaluations follow its answer, one for
    each described service in its order, after the one of the cluster. *)
Theorem services_are_evaluated_as_described (fuel : nat) (client : Client)
    (minimum : nat) (cluster : string) (listed : list string)
    (d : kwargs -> reply) (r : Response) (described : list Service) :
  occurs "/" cluster ->
  has_tags fuel client cluster ->
  lists fuel client "list_services" serviceArns
        [("cluster", AStr cluster); ("maxResults", AInt 100)] listed ->
  listed <> [] ->
  client "describe_services" = Some d ->
  d [("cluster", AStr cluster); ("services", AList listed)] = Reply r ->
  services r = Some described ->
  Forall (fun s => 2 <= count_char "/" (serviceArn s) ->
                   has_tags fuel client (serviceArn s)) described ->
  emits (walk_cluster fuel client minimum cluster)
        ((cluster, "AWS::ECS::Cluster") ::
         map (fun s => (serviceArn s, "AWS::ECS::Service")) described).
Proof.
  intros Hsep Htags Hlist Hne Hd Hr Hs Hsvc. unfold walk_cluster.
  apply occurs_split in Hsep as (pre & rest & -> & Hpre).
  destruct (findall_nameregex_head pre rest Hpre) as [more ->].
  cbn [index0].
  change (bind (ret (line rest)) ?k) with (k (line rest)). cbv beta.
  apply (emits_seq _ _ [_] _); [now apply emits_cluster_eval|].
  apply (lists_emits _ _ _ _ _ _ _ _ Hlist).
  destruct listed as [|s0 listed']; [congruence|].
  cbn [List.length].
  change (0 <? S (List.length listed'))%nat with true. cbv iota.
  intros st. unfold getattr. rewrite Hd.
  erewrite bind_run by reflexivity.
  erewrite bind_run by (unfold call; cbn [body]; rewrite Hr; reflexivity).
  rewrite Hs. erewrite bind_run by reflexivity.
  assert (He : emits (for_each described
                        (fun service =>
                           service_eval fuel client (serviceArn service) minimum
                                        (serviceName service)))
                     (flat_map (fun s => [(serviceArn s, "AWS::ECS::Service")])
                               described)).
  { apply emits_for_each. eapply Forall_impl; [|exact Hsvc].
    intros s Hs'. now apply emits_service_eval. }
  rewrite flat_map_singleton in He.
  destruct (He (mkState (evaluations st)
                  (calls st ++
                   [("describe_services",
                     [("cluster", AStr (pre +++ String "/" rest));
                      ("services", AList (s0 :: listed'))])])))
    as (st' & E & Hm).
  exists st'. split; assumption.
Qed.

Lemma services_are_evaluated_as_described_witness :
  emits (walk_cluster 0 stale_client 3 cluster1)
        ((cluster1, "AWS::ECS::Cluster") ::
         map (fun s => (serviceArn s, "AWS::ECS::Service"))
             [mkService "service/c1/web" "web"; mkService "service/api" "api"]).
Proof.
  assert (Htags : forall arn, has_tags 0 stale_client arn).
  { intros arn. eexists. eapply lists_one_page; reflexivity. }
  apply (services_are_evaluated_as_described 0 stale_client 3 cluster1
           ["service/c1/gone"]
           (fun _ => Reply (mkResponse None None None None
                              (Some [mkService "service/c1/web" "web";
                                     mkService "service/api" "api"])
                              None))
           (mkResponse None None None None
              (Some [mkService "service/c1/web" "web";
                     mkService "service/api" "api"])
              None)).
  - now apply occurs_contains.
  - apply Htags.
  - eapply lists_one_page; reflexivity.
  - discriminate.
  - reflexivity.
  - reflexivity.
  - reflexivity.
  - repeat (apply Forall_cons || apply Forall_nil); intros _; apply Htags.
Defined.

(* ------------------------------------------------------------------ *)
(** * The client methods the pass calls *)

Lemma uses_api_silent {A} (m : M A) :
  (forall st, calls (snd (m st)) = calls st) -> uses_api m.
Proof.
  intros H st. exists []. rewrite app_nil_r. split; [apply H | constructor].
Qed.

Lemma uses_api_bind {A B} (m : M A) (k : A -> M B) :
  uses_api m -> (forall a, uses_api (k a)) -> uses_api (bind m k).
Proof.
  intros Hm Hk st. unfold bind. destruct (Hm st) as (new1 & E1 & F1).
  destruct (m st) as [[a|e|] st1]; simpl in E1 |- *;
    try (exists new1; split; assumption).
  destruct (Hk a st1) as (new2 & E2 & F2).
  exists (new1 ++ new2). split.
  - now rewrite E2, E1, app_assoc.
  - apply Forall_app. split; assumption.
Qed.

Lemma uses_api_call (f : callable) (kw : kwargs) :
  In (method_name f) api -> uses_api (call f kw).
Proof.
  intros H st. rewrite call_run. exists [(method_name f, kw)].
  split; [reflexivity | constructor; [exact H | constructor]].
Qed.

Lemma uses_api_getattr {A} (client : Client) (name : string)
    (k : callable -> M A) :
  (forall f, method_name f = name -> uses_api (k f)) ->
  uses_api (bind (getattr client name) k).
Proof.
  intros Hk st. unfold getattr, bind.
  destruct (client name) as [f|]; simpl.
  - now apply Hk.
  - exists []. rewrite app_nil_r. split; [reflexivity | constructor].
Qed.

Lemma uses_api_fetch_loop {A} (fuel : nat) (client : Client)
    (response_key : Response -> option (list A)) items next_token :
  uses_api (fetch_loop fuel client response_key items next_token).
Proof.
  intros st.
  destruct (fetch_loop_calls fuel client response_key items next_token st)
    as (tokens & E & _).
  eexists. split; [exact E|].
  apply Forall_map. apply Forall_forall. intros t _. simpl. tauto.
Qed.

Lemma uses_api_fetch_all_items {A} (fuel : nat) (client : Client)
    (method : callable) (response_key : Response -> option (list A))
    (kw : kwargs) :
  In (method_name method) api ->
  uses_api (fetch_all_items fuel client method response_key kw).
Proof.
  intros H. unfold fetch_all_items.
  apply uses_api_bind; [destruct kw; now apply uses_api_call|]. intros r.
  apply uses_api_bind;
    [apply uses_api_silent; intros st; now destruct (response_key r)|].
  intros items. apply uses_api_fetch_loop.
Qed.

Lemma uses_api_for_each {A} (l : list A) (f : A -> M unit) :
  (forall x, uses_api (f x)) -> uses_api (for_each l f).
Proof.
  intros Hf. induction l as [|x l IH]; simpl.
  - now apply uses_api_silent.
  - apply uses_api_bind; [apply Hf | intros _; apply IH].
Qed.

Lemma uses_api_annotated (c : ComplianceType) (id type template : string)
    (args : list string) :
  uses_api (annotation <- annotate template args ;;
            append_evaluation (mkEvaluation c id type annotation)).
Proof.
  apply uses_api_silent. intros st. unfold annotate, fmt, bind.
  now destruct (PyStr.format template args).
Qed.

Lemma uses_api_fetch_tags (fuel : nat) (client : Client) (arn : string)
    (k : list Tag -> M unit) :
  (forall l, uses_api (k l)) ->
  uses_api (list_tags <- getattr client "list_tags_for_resource" ;;
            l <- fetch_all_items fuel client list_tags tags
                   [("resourceArn", AStr arn)] ;;
            k l).
Proof.
  intros Hk. apply uses_api_getattr. intros f Hf.
  apply uses_api_bind; [|exact Hk].
  apply uses_api_fetch_all_items. rewrite Hf. simpl. tauto.
Qed.

Lemma uses_api_taskDefinition_eval fuel client arn minimum :
  uses_api (taskDefinition_eval fuel client arn minimum).
Proof.
  unfold taskDefinition_eval.
  apply uses_api_bind;
    [apply uses_api_silent; intros st; now destruct (Re.findall nameregex arn)|].
  intros name. apply uses_api_fetch_tags. intros l.
  destruct (List.length l =? 0)%nat; [apply uses_api_annotated|].
  destruct (_ =? _)%nat; apply uses_api_annotated.
Qed.

Lemma uses_api_service_eval fuel client arn minimum name :
  uses_api (service_eval fuel client arn minimum name).
Proof.
  unfold service_eval.
  destruct (1 <? separators arn)%nat; [|apply uses_api_annotated].
  apply uses_api_fetch_tags. intros l.
  destruct (List.length l =? 0)%nat; [apply uses_api_annotated|].
  destruct (_ =? _)%nat; apply uses_api_annotated.
Qed.

Lemma uses_api_cluster_eval fuel client arn minimum name :
  uses_api (cluster_eval fuel client arn minimum name).
Proof.
  unfold cluster_eval.
  apply uses_api_fetch_tags. intros l.
  destruct (List.length l =? 0)%nat; [apply uses_api_annotated|].
  destruct (_ =? _)%nat; apply uses_api_annotated.
Qed.

Lemma uses_api_walk_cluster fuel client minimum cluster :
  uses_api (walk_cluster fuel client minimum cluster).
Proof.
  unfold walk_cluster.
  apply uses_api_bind;
    [apply uses_api_silent; intros st;
     now destruct (Re.findall nameregex cluster)|].
  intros name.
  apply uses_api_bind; [apply uses_api_cluster_eval|]. intros _.
  apply uses_api_getattr. intros f Hf.
  apply uses_api_bind;
    [apply uses_api_fetch_all_items; rewrite Hf; simpl; tauto|].
  intros l.
  destruct (0 <? List.length l)%nat; [|now apply uses_api_silent].
  apply uses_api_getattr. intros d Hd.
  apply uses_api_bind; [apply uses_api_call; rewrite Hd; simpl; tauto|].
  intros r.
  apply uses_api_bind;
    [apply uses_api_silent; intros st; now destruct (services r)|].
  intros described.
  apply uses_api_for_each. intros s. apply uses_api_service_eval.
Qed.

(** X16: whatever the outcome of a pass, the only client methods it has
    called are list_clusters, list_task_definitions,
    list_tags_for_resource, list_services, describe_services and the
    attribute named method; no other method of the client is ever
    called. *)
Theorem pass_calls_only_listing_methods cleanup (fuel : nat) (client : Client) :
  uses_api (evaluate_periodic cleanup fuel client).
Proof.
  unfold evaluate_periodic.
  apply uses_api_getattr. intros f1 H1.
  apply uses_api_bind;
    [apply uses_api_fetch_all_items; rewrite H1; simpl; tauto|].
  intros clusters.
  apply uses_api_getattr. intros f2 H2.
  apply uses_api_bind;
    [apply uses_api_fetch_all_items; rewrite H2; simpl; tauto|].
  intros tasks.
  apply uses_api_bind; [now apply uses_api_silent|]. intros _.
  apply uses_api_bind;
    [apply uses_api_for_each; intros t; apply uses_api_taskDefinition_eval|].
  intros _.
  apply uses_api_bind;
    [apply uses_api_for_each; intros c; apply uses_api_walk_cluster|].
  intros _.
  apply uses_api_bind; [now apply uses_api_silent|]. intros result.
  apply uses_api_silent. intros st.
  destruct result as [|e l]; [reflexivity|].
  now destruct (cleanup (e :: l)).
Qed.
